(** * A shallow embedding of the [logger] package

    The package is a small structured-logging facade.  Its decision logic
    lives in the standard writer: the parser of the [LOG] / [LOG_LEVEL]
    environment strings, the per-package filter and the two formatters.

    Conventions of the embedding.
    - A Go [string] is a sequence of bytes: Rocq's [string].
    - A pointer [*T] is an [option T]; [None] is the nil pointer and
      [Some x] is [&x].  Nothing in the package writes through a pointer
      after it has been published, so sharing is not observable.
    - A [map[string]T] is a [gmap string T]; reading a missing key yields
      [None] (Go's [ok = false]).
    - A run-time panic (nil dereference) is the [None] of an [option]
      result. *)

From Stdlib Require Import Ascii String ZArith.
From stdpp Require Import gmap strings list fin_maps pretty.

Open Scope string_scope.

(** ** The parts of Go's [strings] package that the writer calls *)

Module GoStrings.

Definition byte (c : ascii) : N := N_of_ascii c.

Definition between (lo hi : N) (c : ascii) : bool :=
  ((lo <=? byte c) && (byte c <=? hi))%N.

Definition byte_is (n : N) (c : ascii) : bool := (byte c =? n)%N.

(** [asciiSpace]: tab, line feed, vertical tab, form feed, carriage
    return and space. *)
Definition asciiSpace (c : ascii) : bool := between 9 13 c || byte_is 32 c.

(** The white-space runes of [unicode.IsSpace] beyond ASCII, by their
    UTF-8 encoding: U+0085 and U+00A0 take two bytes, U+1680,
    U+2000..U+200A, U+2028, U+2029, U+202F, U+205F and U+3000 three. *)
Definition space2 (c1 c2 : ascii) : bool :=
  byte_is 194 c1 && (byte_is 133 c2 || byte_is 160 c2).

Definition space3 (c1 c2 c3 : ascii) : bool :=
  (byte_is 225 c1 && byte_is 154 c2 && byte_is 128 c3)
  || (byte_is 226 c1 && byte_is 128 c2
      && (between 128 138 c3 || byte_is 168 c3 || byte_is 169 c3 || byte_is 175 c3))
  || (byte_is 226 c1 && byte_is 129 c2 && byte_is 159 c3)
  || (byte_is 227 c1 && byte_is 128 c2 && byte_is 128 c3).

(** Drops white-space runes from the front of [s].  [sp2] and [sp3]
    recognise the two-byte and three-byte runes in reading order. *)
Fixpoint trim_front (sp2 : ascii -> ascii -> bool)
    (sp3 : ascii -> ascii -> ascii -> bool) (s : string) : string :=
  match s with
  | EmptyString => s
  | String c1 s1 =>
      if asciiSpace c1 then trim_front sp2 sp3 s1
      else
        match s1 with
        | EmptyString => s
        | String c2 s2 =>
            if sp2 c1 c2 then trim_front sp2 sp3 s2
            else
              match s2 with
              | EmptyString => s
              | String c3 s3 =>
                  if sp3 c1 c2 c3 then trim_front sp2 sp3 s3 else s
              end
        end
  end.

Definition TrimLeft (s : string) : string := trim_front space2 space3 s.

(** From the back the bytes of a rune are met last byte first. *)
Definition TrimRight (s : string) : string :=
  String.rev
    (trim_front (fun c2 c1 => space2 c1 c2)
                (fun c3 c2 c1 => space3 c1 c2 c3) (String.rev s)).

(** [strings.TrimSpace]: all leading and trailing white space removed,
    as defined by Unicode. *)
Definition TrimSpace (s : string) : string := TrimRight (TrimLeft s).

Definition upper (c : ascii) : ascii :=
  if between 97 122 c then ascii_of_N (byte c - 32) else c.

(** Upper case byte by byte: what [strings.ToUpper] does on a string that
    is all ASCII. *)
Fixpoint asciiUpper (s : string) : string :=
  match s with
  | EmptyString => EmptyString
  | String c s' => String (upper c) (asciiUpper s')
  end.

(** [strings.ToUpper].  Outside ASCII Go maps every rune through the
    Unicode case tables.  Two runes have an ASCII upper case: U+0131
    (bytes 196 177) becomes [I] and U+017F (bytes 197 191) becomes [S];
    a byte 196 or 197 always starts a rune, so the two are recognised
    wherever their bytes stand.  Every other rune outside ASCII, and every
    byte that is not valid UTF-8, is mapped to bytes outside ASCII again:
    those bytes are kept as they are here, which changes no comparison
    with an ASCII string. *)
Fixpoint ToUpper (s : string) : string :=
  match s with
  | EmptyString => EmptyString
  | String c1 s1 =>
      match s1 with
      | EmptyString => String (upper c1) EmptyString
      | String c2 s2 =>
          if byte_is 196 c1 && byte_is 177 c2 then String "I" (ToUpper s2)
          else if byte_is 197 c1 && byte_is 191 c2 then String "S" (ToUpper s2)
          else String (upper c1) (ToUpper s1)
      end
  end.

(** [strings.Split] for a separator of one byte, the only way the
    package calls it: the pieces of [s] between the occurrences of
    [sep], one more than there are occurrences. *)
Fixpoint Split (s : string) (sep : ascii) : list string :=
  match s with
  | EmptyString => [EmptyString]
  | String c s' =>
      if Ascii.eqb c sep then EmptyString :: Split s' sep
      else
        match Split s' sep with
        | piece :: pieces => String c piece :: pieces
        | [] => [String c EmptyString]
        end
  end.

(** [strings.Cut] for a separator of one byte: the text before the
    first occurrence of [sep] and, when there is one, the text after it. *)
Fixpoint Cut (s : string) (sep : ascii) : string * option string :=
  match s with
  | EmptyString => (EmptyString, None)
  | String c s' =>
      if Ascii.eqb c sep then (EmptyString, Some s')
      else
        let '(before, after) := Cut s' sep in
        (String c before, after)
  end.

(** Strings made of ASCII white space only. *)
Fixpoint allSpace (s : string) : bool :=
  match s with
  | EmptyString => true
  | String c s' => asciiSpace c && allSpace s'
  end.

End GoStrings.

Import GoStrings.

(** ** Data model *)

(** The capability mask.  The type is declared elsewhere in the package;
    its three fields are the ones the writer reads and writes. *)
Record OutputSettings := {
  Info : bool;
  Timer : bool;
  Error : bool
}.

#[export] Instance OutputSettings_eq_dec : EqDecision OutputSettings.
Proof. solve_decision. Defined.

(** Modelled from the spec: [muted] is declared elsewhere in the package;
    it is the constant fully-false mask that serves as the ultimate
    fallback. *)
Definition muted : option OutputSettings :=
  Some {| Info := false; Timer := false; Error := false |}.

(** An open file is known by its descriptor. *)
Definition File := nat.

Record StandardWriter := {
  ColorsEnabled : bool;
  Target : File;
  Settings : gmap string (option OutputSettings)
}.

(** ** The settings parser *)

Definition parseVerbosityLevel (val : string) : option OutputSettings :=
  let val := ToUpper (TrimSpace val) in
  if String.eqb val "MUTE" then
    Some {| Info := false; Timer := false; Error := false |}
  else
    let s := {| Info := true; Timer := true; Error := true |} in
    let s :=
      if String.eqb val "TIMER"
      then {| Info := false; Timer := Timer s; Error := Error s |}
      else s in
    let s :=
      if String.eqb val "ERROR"
      then {| Info := false; Timer := false; Error := Error s |}
      else s in
    Some s.

(** [parsed[0]] exists because [Split] never returns an empty slice, and
    [parsed[1]] exists exactly when [len(parsed) > 1]. *)
Definition parsePackageName (input : string)
    : string * option OutputSettings :=
  let parsed := Split input "@" in
  let name := TrimSpace (default "" (parsed !! 0%nat)) in
  match parsed !! 1%nat with
  | Some token => (name, parseVerbosityLevel token)
  | None => (name, None)
  end.

Definition parsePackageSettings (input : string)
    (defaultOutputSettings : option OutputSettings)
    : gmap string (option OutputSettings) :=
  let items := Split input "," in
  foldl
    (fun all item =>
       let '(name, verbosity) := parsePackageName item in
       let verbosity :=
         match verbosity with
         | None => defaultOutputSettings
         | Some _ => verbosity
         end in
       <[name := verbosity]> all)
    ∅ items.

(** The name and the token of a list item, by position of the ["@"]
    signs: the name is the trimmed text before the first one; the token is
    the text between the first one and the next one, or the end of the
    item. *)
Definition itemName (item : string) : string :=
  TrimSpace (Cut item "@").1.

Definition itemToken (item : string) : option string :=
  (fun rest => (Cut rest "@").1) <$> (Cut item "@").2.

Definition itemMask (d : option OutputSettings) (item : string)
    : option OutputSettings :=
  match itemToken item with
  | Some token => parseVerbosityLevel token
  | None => d
  end.

(** The parser as the specification words it: every item is split at its
    first ["@"] into a name and, when the sign is there, a token that is
    all the text after it. *)
Definition parsePackageSettings_spec (input : string)
    (defaultOutputSettings : option OutputSettings)
    : gmap string (option OutputSettings) :=
  foldl
    (fun all item =>
       let '(name, token) := Cut item "@" in
       let mask :=
         match token with
         | Some token => parseVerbosityLevel token
         | None => defaultOutputSettings
         end in
       <[TrimSpace name := mask]> all)
    ∅ (Split input ",").

(** ** Filter and lookup *)

Definition LoggerSettings (standardWriter : StandardWriter) (p : string)
    : option OutputSettings :=
  match Settings standardWriter !! p with
  | Some settings => settings
  | None =>
      match Settings standardWriter !! "*" with
      | Some settings => settings
      | None => muted
      end
  end.

(** Reading a field through a nil pointer panics: the result is [None]. *)
Definition IsEnabled (standardWriter : StandardWriter)
    (logger level : string) : option bool :=
  let settings := LoggerSettings standardWriter logger in
  if String.eqb level "INFO" then Info <$> settings
  else if String.eqb level "ERROR" then Error <$> settings
  else if String.eqb level "TIMER" then Timer <$> settings
  else Some false.

(** The levels the filter knows. *)
Definition knownLevel (level : string) : Prop :=
  level = "INFO" ∨ level = "ERROR" ∨ level = "TIMER".

(** The process environment; [os.Getenv] yields the empty string for a
    variable that is not set. *)
Definition Environ := gmap string string.

Definition Getenv (env : Environ) (key : string) : string :=
  default "" (env !! key).

(** A variable that is not set and one set to the empty string read the
    same. *)
Definition unsetOrEmpty (env : Environ) (key : string) : Prop :=
  env !! key = None ∨ env !! key = Some "".

Definition NewStandardOutput (env : Environ) (file : File) : StandardWriter :=
  let defaultOutputSettings := parseVerbosityLevel (Getenv env "LOG_LEVEL") in
  let logEnv := "*" in
  let logEnv :=
    if negb (String.eqb (Getenv env "LOG") "") then Getenv env "LOG"
    else logEnv in
  {| ColorsEnabled := true;
     Target := file;
     Settings := parsePackageSettings logEnv defaultOutputSettings |}.

Definition full : OutputSettings :=
  {| Info := true; Timer := true; Error := true |}.

(** ** Values, records and the world outside the package *)

(** An argument of a logging call is any Go value ([interface{}]); a
    timestamp is a [time.Time].  Neither type is inspected by the package. *)
Class Universe := {
  value : Type;
  time_Time : Type
}.

Section Records.
Context {U : Universe}.

(** Go's [type Attrs map[string]interface{}]. *)
Definition AttrsMap := gmap string value.

(** The log record.  The type is declared elsewhere in the package; its
    fields are the ones the logger fills in and the writer reads. *)
Record Log := {
  Package : string;
  Level : string;
  Message : string;
  Time : time_Time;
  Attrs : option AttrsMap;
  ElapsedNano : Z
}.

(** What the program can observe and change around it: each call of
    [time.Now] takes the next reading of the wall clock, a [range] loop
    over a map meets the entries in an order of the run time's choosing,
    and every file holds the bytes written to it so far.  Write errors,
    which the writer ignores, are outside the model. *)
Record World := {
  clock : nat -> time_Time;
  rangeOrder : AttrsMap -> list (string * value);
  files : File -> string
}.

(** The record [log] with its timestamp replaced. *)
Definition withTime (t : time_Time) (log : Log) : Log :=
  {| Package := Package log;
     Level := Level log;
     Message := Message log;
     Time := t;
     Attrs := Attrs log;
     ElapsedNano := ElapsedNano log |}.

(** A computation reads and changes the world, or panics ([None]). *)
Definition M (A : Type) : Type := World -> option (A * World).

#[export] Instance M_ret : MRet M := fun A x σ => Some (x, σ).

#[export] Instance M_bind : MBind M := fun A B f m σ =>
  match m σ with
  | Some (x, σ') => f x σ'
  | None => None
  end.

Definition panic {A : Type} : M A := fun _ => None.

Definition time_Now : M time_Time := fun σ =>
  Some (clock σ 0%nat,
        {| clock := fun n => clock σ (S n);
           rangeOrder := rangeOrder σ;
           files := files σ |}).

Definition range (attrs : AttrsMap) : M (list (string * value)) := fun σ =>
  Some (rangeOrder σ attrs, σ).

(** Modelled from the spec: [Now] is declared elsewhere in the package;
    it supplies the timestamp of a record (section 3 of the spec) and is
    taken to read the wall clock. *)
Definition Now : M time_Time := time_Now.

Definition newline : string := String (ascii_of_N 10) EmptyString.

(** [fmt.Fprintln(file, s)]: the text and a line feed are appended. *)
Definition Fprintln (file : File) (s : string) : M unit := fun σ =>
  Some (tt,
        {| clock := clock σ;
           rangeOrder := rangeOrder σ;
           files := fun f =>
             if decide (f = file) then files σ f ++ s ++ newline
             else files σ f |}).

End Records.

(** The functions that the writer and the logger call and do not define.
    From Go's library: [fmt.Sprintf] with a caller-supplied
    template, the [%v] rendering of a value, [Time.Format],
    [Duration.String] and [json.Marshal], whose error is known by its
    text.  From elsewhere in the package: [SplitAttrs], [colorFor] and
    the colour codes [red] and [reset]. *)
Class Platform {U : Universe} := {
  Sprintf : string -> list value -> string;
  formatValue : value -> string;
  Time_Format : time_Time -> string -> string;
  Duration_String : Z -> string;
  json_Marshal : Log -> string + string;
  SplitAttrs : list value -> list value * option AttrsMap;
  colorFor : string -> string;
  red : string;
  reset : string
}.

Section Writer.
Context {U : Universe} {P : Platform}.

(** ** The formatter *)

Definition quote : string := String (ascii_of_N 34) EmptyString.

(** [fmt.Sprintf] with a fixed template whose verbs are all [%s] or an
    error's [%v] is the concatenation of the template's text and the
    operands; it is written out as such below. *)
Definition JSONFormat (standardWriter : StandardWriter) (log : Log) : string :=
  match json_Marshal log with
  | inr err =>
      "{ " ++ quote ++ "logger-error" ++ quote ++ ": "
        ++ quote ++ err ++ quote ++ " }"
  | inl str => str
  end.

Definition PrettyAttrs (standardWriter : StandardWriter)
    (attrs : option AttrsMap) : M string :=
  match attrs with
  | None => mret ""
  | Some attrs =>
      entries ← range attrs;
      mret (foldl
              (fun result '(key, val) =>
                 result ++ " " ++ key ++ "=" ++ formatValue val)
              "" entries)
  end.

Definition PrettyLabelExt (standardWriter : StandardWriter) (log : Log)
    : string :=
  if String.eqb (Level log) "ERROR" then
    "(" ++ red ++ "!" ++ colorFor (Package log) ++ ")"
  else if String.eqb (Level log) "TIMER" then
    "(" ++ reset ++ Duration_String (ElapsedNano log)
        ++ colorFor (Package log) ++ ")"
  else "".

Definition PrettyLabel (standardWriter : StandardWriter) (log : Log)
    : string :=
  colorFor (Package log) ++ Package log
    ++ PrettyLabelExt standardWriter log ++ ":" ++ reset.

Definition PrettyFormat (standardWriter : StandardWriter) (log : Log)
    : M string :=
  now ← time_Now;
  attrs ← PrettyAttrs standardWriter (Attrs log);
  mret (Time_Format now "15:04:05.000" ++ " "
          ++ PrettyLabel standardWriter log ++ " "
          ++ Message log ++ attrs).

Definition Format (standardWriter : StandardWriter) (log : Log) : M string :=
  if ColorsEnabled standardWriter then PrettyFormat standardWriter log
  else mret (JSONFormat standardWriter log).

(** ** The writer *)

Definition Write (standardWriter : StandardWriter) (log : Log) : M unit :=
  match IsEnabled standardWriter (Package log) (Level log) with
  | None => panic
  | Some true =>
      line ← Format standardWriter log;
      Fprintln (Target standardWriter) line
  | Some false => mret tt
  end.

(** ** The logger *)

Record Logger := { Name : string }.

Definition New (name : string) : Logger := {| Name := name |}.

(** [runtime.Log], the dispatcher declared elsewhere in the package, is
    the parameter [dispatch]: the record is handed to it as it is. *)
Definition Logger_Log (dispatch : Log -> M unit) (logger : Logger)
    (level message : string) (args : list value) : M unit :=
  let '(v, attrs) := SplitAttrs args in
  let message := Sprintf message v in
  now ← Now;
  dispatch {| Package := Name logger;
              Level := level;
              Message := message;
              Time := now;
              Attrs := attrs;
              ElapsedNano := 0 |}.

Definition Logger_Timer (logger : Logger) : M Log :=
  now ← Now;
  mret {| Package := Name logger;
          Level := "TIMER";
          Message := "";
          Time := now;
          Attrs := None;
          ElapsedNano := 0 |}.

Definition Logger_Info (dispatch : Log -> M unit) (logger : Logger)
    (msg : string) (v : list value) : M unit :=
  Logger_Log dispatch logger "INFO" msg v.

Definition Logger_Error (dispatch : Log -> M unit) (logger : Logger)
    (msg : string) (v : list value) : M unit :=
  Logger_Log dispatch logger "ERROR" msg v.

End Writer.

(** ** A small platform

    Operands are integers and so are timestamps.  [Sprintf] renders the
    verb [%d] with the next operand in decimal and copies every other
    byte; no operand carries attributes.  It serves to run the logger on
    concrete calls. *)

Module Demo.

#[local] Instance universe : Universe := {| value := Z; time_Time := Z |}.

Fixpoint demo_Sprintf (template : string) (args : list Z) : string :=
  match template with
  | EmptyString => EmptyString
  | String c rest =>
      match rest with
      | String d rest' =>
          if Ascii.eqb c "%" && Ascii.eqb d "d" then
            match args with
            | a :: args' => pretty a ++ demo_Sprintf rest' args'
            | [] => "%!d(MISSING)" ++ demo_Sprintf rest' []
            end
          else String c (demo_Sprintf rest args)
      | EmptyString => String c EmptyString
      end
  end.

Definition platform : Platform := {|
  Sprintf := demo_Sprintf;
  formatValue := pretty;
  Time_Format := fun t _ => pretty t;
  Duration_String := fun d => pretty d ++ "ns";
  json_Marshal := fun log => inr "json: unsupported value";
  SplitAttrs := fun args => (args, None);
  colorFor := fun _ => "";
  red := "";
  reset := ""
|}.

Definition world : World := {|
  clock := fun n => Z.of_nat n;
  rangeOrder := map_to_list;
  files := fun _ => ""
|}.

Definition env : Environ := {[ "LOG" := "*@error" ]}.

End Demo.

(** ** Notions used to state further properties *)

(** Whether the byte [c] occurs in [s], and how often. *)
Fixpoint hasByte (c : ascii) (s : string) : bool :=
  match s with
  | EmptyString => false
  | String c' s' => Ascii.eqb c' c || hasByte c s'
  end.

Fixpoint countByte (c : ascii) (s : string) : nat :=
  match s with
  | EmptyString => 0
  | String c' s' => (if Ascii.eqb c' c then 1 else 0) + countByte c s'
  end.

(** The list string that [NewStandardOutput] parses: [LOG], or ["*"] when
    [LOG] reads empty. *)
Definition effectiveLOG (env : Environ) : string :=
  if String.eqb (Getenv env "LOG") "" then "*" else Getenv env "LOG".

(** The four masks that [parseVerbosityLevel] can return. *)
Definition tokenMask (m : OutputSettings) : Prop :=
  m = {| Info := false; Timer := false; Error := false |}
  ∨ m = {| Info := false; Timer := false; Error := true |}
  ∨ m = {| Info := false; Timer := true; Error := true |}
  ∨ m = {| Info := true; Timer := true; Error := true |}.

Section Notions.
Context {U : Universe} {P : Platform}.

(** A [range] loop meets every entry of the map once: the order that the
    world chooses is a permutation of the entries. *)
Definition validOrder (σ : World) : Prop :=
  ∀ attrs, rangeOrder σ attrs ≡ₚ map_to_list attrs.

(** One attribute as [PrettyAttrs] prints it. *)
Definition renderAttr (entry : string * value) : string :=
  " " ++ entry.1 ++ "=" ++ formatValue entry.2.

(** The record [log] with its elapsed time replaced. *)
Definition withElapsed (e : Z) (log : Log) : Log :=
  {| Package := Package log;
     Level := Level log;
     Message := Message log;
     Time := Time log;
     Attrs := Attrs log;
     ElapsedNano := e |}.

End Notions.

(** Records and writers on the small platform, to run the further
    properties on. *)
Module Scene.

Definition record : @Log Demo.universe :=
  @Build_Log Demo.universe "database" "ERROR" "bad 5" 0%Z None 0%Z.

Definition silentWriter : StandardWriter :=
  {| ColorsEnabled := true; Target := 1%nat; Settings := ∅ |}.

Definition jsonWriter : StandardWriter :=
  {| ColorsEnabled := false;
     Target := 1%nat;
     Settings := {[ "*" := Some full ]} |}.

End Scene.

(** * Properties *)

(** ** White space and letter case *)

Lemma append_cons (c : ascii) (s t : string) :
  String c s ++ t = String c (s ++ t).
Proof. reflexivity. Qed.

Lemma append_nil_l (s : string) : "" ++ s = s.
Proof. reflexivity. Qed.

Lemma append_nil_r (s : string) : s ++ "" = s.
Proof.
  induction s as [| c s IH]; [reflexivity |]. by rewrite append_cons, IH.
Qed.

Lemma append_assoc (s1 s2 s3 : string) : (s1 ++ s2) ++ s3 = s1 ++ s2 ++ s3.
Proof.
  induction s1 as [| c s1 IH]; [reflexivity |]. by rewrite !append_cons, IH.
Qed.

Lemma rev_app_append (s1 s2 : string) :
  String.rev_app s1 s2 = String.rev s1 ++ s2.
Proof.
  unfold String.rev. revert s2.
  induction s1 as [| c s1 IH]; intros s2; simpl; [reflexivity |].
  by rewrite IH, (IH (String c "")), append_assoc.
Qed.

Lemma rev_cons (c : ascii) (s : string) :
  String.rev (String c s) = String.rev s ++ String c "".
Proof. unfold String.rev at 1. simpl. apply rev_app_append. Qed.

Lemma rev_append (s1 s2 : string) :
  String.rev (s1 ++ s2) = String.rev s2 ++ String.rev s1.
Proof.
  induction s1 as [| c s1 IH].
  - by rewrite append_nil_l, append_nil_r.
  - by rewrite append_cons, !rev_cons, IH, append_assoc.
Qed.

Lemma allSpace_append (s1 s2 : string) :
  allSpace (s1 ++ s2) = allSpace s1 && allSpace s2.
Proof.
  induction s1 as [| c s1 IH]; [reflexivity |].
  rewrite append_cons. simpl. by rewrite IH, andb_assoc.
Qed.

Lemma allSpace_rev (s : string) : allSpace (String.rev s) = allSpace s.
Proof.
  induction s as [| c s IH]; [reflexivity |].
  rewrite rev_cons, allSpace_append, IH. simpl.
  rewrite andb_true_r. apply andb_comm.
Qed.

Section TrimFront.
Variable sp2 : ascii → ascii → bool.
Variable sp3 : ascii → ascii → ascii → bool.

Lemma trim_front_allSpace (pad s : string) :
  allSpace pad = true → trim_front sp2 sp3 (pad ++ s) = trim_front sp2 sp3 s.
Proof.
  induction pad as [| c pad IH]; [reflexivity |].
  rewrite append_cons. simpl.
  intros [-> Hpad]%andb_true_iff. by apply IH.
Qed.

(** A rune of two or three bytes has no ASCII white space after its
    first byte. *)
Hypothesis sp2_tail : ∀ c1 c2, asciiSpace c2 = true → sp2 c1 c2 = false.
Hypothesis sp3_tail : ∀ c1 c2 c3,
  asciiSpace c2 = true ∨ asciiSpace c3 = true → sp3 c1 c2 c3 = false.

Lemma trim_front_keeps_pad (pad : string) :
  allSpace pad = true →
  ∀ s, trim_front sp2 sp3 (s ++ pad)
       = match trim_front sp2 sp3 s with
         | EmptyString => EmptyString
         | t => t ++ pad
         end.
Proof.
  intros Hpad s.
  remember (String.length s) as n eqn:Hn.
  revert s Hn. induction n as [n IH] using lt_wf_ind. intros s Hn.
  destruct s as [| c1 s1].
  { rewrite append_nil_l, <- (append_nil_r pad). simpl.
    by apply trim_front_allSpace. }
  simpl in Hn. rewrite append_cons. simpl.
  destruct (asciiSpace c1) eqn:E1.
  { apply (IH (String.length s1)); [lia | reflexivity]. }
  destruct s1 as [| c2 s2].
  { rewrite append_nil_l. destruct pad as [| p1 pad1]; [reflexivity |].
    simpl in Hpad. apply andb_true_iff in Hpad as [Hp1 Hpad1].
    rewrite sp2_tail by done.
    destruct pad1 as [| p2 pad2]; [reflexivity |].
    by rewrite sp3_tail by auto. }
  simpl in Hn. rewrite append_cons.
  destruct (sp2 c1 c2) eqn:E2.
  { apply (IH (String.length s2)); [lia | reflexivity]. }
  destruct s2 as [| c3 s3].
  { rewrite append_nil_l. destruct pad as [| p1 pad1]; [reflexivity |].
    simpl in Hpad. apply andb_true_iff in Hpad as [Hp1 Hpad1].
    by rewrite sp3_tail by auto. }
  simpl in Hn. rewrite append_cons.
  destruct (sp3 c1 c2 c3) eqn:E3.
  { apply (IH (String.length s3)); [lia | reflexivity]. }
  reflexivity.
Qed.

End TrimFront.

Lemma asciiSpace_low (c : ascii) : asciiSpace c = true → (byte c <? 128)%N = true.
Proof.
  unfold asciiSpace, between, byte_is.
  intros [[_ E]%andb_true_iff | E]%orb_true_iff; apply N.ltb_lt.
  - apply N.leb_le in E. lia.
  - apply N.eqb_eq in E. lia.
Qed.

Lemma byte_is_high (n : N) (c : ascii) :
  (128 <= n)%N → asciiSpace c = true → byte_is n c = false.
Proof.
  intros Hn Hc%asciiSpace_low. apply N.ltb_lt in Hc.
  unfold byte_is. apply N.eqb_neq. lia.
Qed.

Lemma between_high (lo hi : N) (c : ascii) :
  (128 <= lo)%N → asciiSpace c = true → between lo hi c = false.
Proof.
  intros Hn Hc%asciiSpace_low. apply N.ltb_lt in Hc.
  unfold between. apply andb_false_iff. left. apply N.leb_gt. lia.
Qed.

Lemma space2_tail (c1 c2 : ascii) : asciiSpace c2 = true → space2 c1 c2 = false.
Proof.
  intros Hc. unfold space2.
  rewrite !(byte_is_high _ c2) by (done || lia). apply andb_false_r.
Qed.

Lemma space3_any (c1 c2 c3 : ascii) :
  asciiSpace c1 = true ∨ asciiSpace c2 = true ∨ asciiSpace c3 = true →
  space3 c1 c2 c3 = false.
Proof.
  unfold space3. intros [Hc | [Hc | Hc]].
  - rewrite !(byte_is_high _ c1) by (done || lia). reflexivity.
  - rewrite !(byte_is_high _ c2) by (done || lia).
    by rewrite !andb_false_r.
  - rewrite !(byte_is_high _ c3), (between_high _ _ c3) by (done || lia).
    by rewrite !andb_false_r.
Qed.

Lemma TrimLeft_pad (pad s : string) :
  allSpace pad = true → TrimLeft (pad ++ s) = TrimLeft s.
Proof. apply trim_front_allSpace. Qed.

Lemma TrimRight_pad (pad s : string) :
  allSpace pad = true → TrimRight (s ++ pad) = TrimRight s.
Proof.
  intros Hpad. unfold TrimRight.
  rewrite rev_append, trim_front_allSpace; [reflexivity |].
  by rewrite allSpace_rev.
Qed.

Lemma TrimSpace_pad (l r s : string) :
  allSpace l = true → allSpace r = true →
  TrimSpace (l ++ s ++ r) = TrimSpace s.
Proof.
  intros Hl Hr. unfold TrimSpace.
  rewrite TrimLeft_pad by done. unfold TrimLeft.
  rewrite (trim_front_keeps_pad space2 space3) by
    (done || (intros; apply space2_tail; done)
          || (intros; apply space3_any; tauto)).
  destruct (trim_front space2 space3 s) as [| c t] eqn:E; [reflexivity |].
  by apply TrimRight_pad.
Qed.

Lemma upper_cases (c : ascii) :
  upper c = c ∨ ((byte c <? 128) && (byte (upper c) <? 128))%N = true.
Proof.
  destruct c as [[] [] [] [] [] [] [] []]; vm_compute; auto.
Qed.

Lemma asciiSpace_upper (c : ascii) : asciiSpace (upper c) = asciiSpace c.
Proof. destruct c as [[] [] [] [] [] [] [] []]; reflexivity. Qed.

Lemma byte_is_upper (n : N) (c : ascii) :
  (128 <= n)%N → byte_is n (upper c) = byte_is n c.
Proof.
  intros Hn. destruct (upper_cases c) as [-> | E]; [reflexivity |].
  apply andb_true_iff in E as [E1%N.ltb_lt E2%N.ltb_lt].
  unfold byte_is. transitivity false; [| symmetry]; apply N.eqb_neq; lia.
Qed.

Lemma between_upper (lo hi : N) (c : ascii) :
  (128 <= lo)%N → between lo hi (upper c) = between lo hi c.
Proof.
  intros Hn. destruct (upper_cases c) as [-> | E]; [reflexivity |].
  apply andb_true_iff in E as [E1%N.ltb_lt E2%N.ltb_lt].
  unfold between.
  transitivity false; [| symmetry]; apply andb_false_iff; left;
    apply N.leb_gt; lia.
Qed.

Lemma space2_upper (c1 c2 : ascii) :
  space2 (upper c1) (upper c2) = space2 c1 c2.
Proof. unfold space2. by rewrite !byte_is_upper by lia. Qed.

Lemma space3_upper (c1 c2 c3 : ascii) :
  space3 (upper c1) (upper c2) (upper c3) = space3 c1 c2 c3.
Proof.
  unfold space3. by rewrite !byte_is_upper, between_upper by lia.
Qed.

Lemma asciiUpper_append (s1 s2 : string) :
  asciiUpper (s1 ++ s2) = asciiUpper s1 ++ asciiUpper s2.
Proof.
  induction s1 as [| c s1 IH]; [reflexivity |].
  rewrite append_cons. simpl. by rewrite IH.
Qed.

Lemma asciiUpper_rev (s : string) : asciiUpper (String.rev s) = String.rev (asciiUpper s).
Proof.
  induction s as [| c s IH]; [reflexivity |].
  simpl asciiUpper at 2. by rewrite !rev_cons, asciiUpper_append, IH.
Qed.

Lemma asciiUpper_trim_front (sp2 : ascii → ascii → bool)
    (sp3 : ascii → ascii → ascii → bool) :
  (∀ c1 c2, sp2 (upper c1) (upper c2) = sp2 c1 c2) →
  (∀ c1 c2 c3, sp3 (upper c1) (upper c2) (upper c3) = sp3 c1 c2 c3) →
  ∀ s, asciiUpper (trim_front sp2 sp3 s) = trim_front sp2 sp3 (asciiUpper s).
Proof.
  intros H2 H3 s.
  remember (String.length s) as n eqn:Hn.
  revert s Hn. induction n as [n IH] using lt_wf_ind. intros s Hn.
  destruct s as [| c1 s1]; [reflexivity |].
  simpl in Hn. simpl. rewrite asciiSpace_upper.
  destruct (asciiSpace c1).
  { apply (IH (String.length s1)); [lia | reflexivity]. }
  destruct s1 as [| c2 s2]; [reflexivity |].
  simpl in Hn. simpl. rewrite H2.
  destruct (sp2 c1 c2).
  { apply (IH (String.length s2)); [lia | reflexivity]. }
  destruct s2 as [| c3 s3]; [reflexivity |].
  simpl in Hn. simpl. rewrite H3.
  destruct (sp3 c1 c2 c3); [| reflexivity].
  apply (IH (String.length s3)); [lia | reflexivity].
Qed.

Lemma asciiUpper_TrimSpace (s : string) :
  asciiUpper (TrimSpace s) = TrimSpace (asciiUpper s).
Proof.
  unfold TrimSpace, TrimRight, TrimLeft.
  rewrite asciiUpper_rev, asciiUpper_trim_front, asciiUpper_rev, asciiUpper_trim_front;
    auto using space2_upper, space3_upper.
Qed.

Lemma upper_upper (c : ascii) : upper (upper c) = upper c.
Proof. destruct c as [[] [] [] [] [] [] [] []]; reflexivity. Qed.

Lemma ToUpper_cons (c1 c2 : ascii) (s2 : string) :
  ToUpper (String c1 (String c2 s2))
  = if byte_is 196 c1 && byte_is 177 c2 then String "I" (ToUpper s2)
    else if byte_is 197 c1 && byte_is 191 c2 then String "S" (ToUpper s2)
    else String (upper c1) (ToUpper (String c2 s2)).
Proof. reflexivity. Qed.

Lemma ToUpper_asciiUpper (s : string) : ToUpper (asciiUpper s) = ToUpper s.
Proof.
  remember (String.length s) as n eqn:Hn.
  revert s Hn. induction n as [n IH] using lt_wf_ind. intros s Hn.
  destruct s as [| c1 s1]; [reflexivity |].
  destruct s1 as [| c2 s2]; simpl in Hn.
  { simpl. by rewrite upper_upper. }
  change (asciiUpper (String c1 (String c2 s2)))
    with (String (upper c1) (asciiUpper (String c2 s2))).
  change (asciiUpper (String c2 s2))
    with (String (upper c2) (asciiUpper s2)) at 1.
  rewrite !ToUpper_cons, !byte_is_upper by lia.
  destruct (byte_is 196 c1 && byte_is 177 c2).
  { f_equal. apply (IH (String.length s2)); [lia | reflexivity]. }
  destruct (byte_is 197 c1 && byte_is 191 c2).
  { f_equal. apply (IH (String.length s2)); [lia | reflexivity]. }
  rewrite upper_upper. f_equal.
  change (String (upper c2) (asciiUpper s2)) with (asciiUpper (String c2 s2)).
  apply (IH (String.length (String c2 s2))); [simpl; lia | reflexivity].
Qed.

Lemma parseVerbosityLevel_case (val val' : string) :
  asciiUpper val' = asciiUpper val →
  parseVerbosityLevel val' = parseVerbosityLevel val.
Proof.
  intros E. unfold parseVerbosityLevel.
  rewrite <- (ToUpper_asciiUpper (TrimSpace val')).
  rewrite <- (ToUpper_asciiUpper (TrimSpace val)).
  by rewrite !asciiUpper_TrimSpace, E.
Qed.

Lemma parseVerbosityLevel_pad (l r val : string) :
  allSpace l = true → allSpace r = true →
  parseVerbosityLevel (l ++ val ++ r) = parseVerbosityLevel val.
Proof.
  intros Hl Hr. unfold parseVerbosityLevel. by rewrite TrimSpace_pad.
Qed.

(** The white space of Unicode is trimmed too (here a no-break space in
    front and an em space behind), and the dotless i has [I] as its upper
    case. *)
Example TrimSpace_unicode : TrimSpace "  Mute  " = "Mute".
Proof. reflexivity. Qed.

Example parseVerbosityLevel_dotless_i :
  parseVerbosityLevel "tımer"
  = Some {| Info := false; Timer := true; Error := true |}.
Proof. reflexivity. Qed.

(** ** Splitting *)

Lemma Split_Cut (s : string) (sep : ascii) :
  Split s sep
  = match Cut s sep with
    | (before, None) => [before]
    | (before, Some after) => before :: Split after sep
    end.
Proof.
  induction s as [| c s IH]; simpl; [reflexivity |].
  destruct (Ascii.eqb c sep); [reflexivity |].
  rewrite IH. destruct (Cut s sep) as [before [after |]]; reflexivity.
Qed.

Lemma Split_first (s : string) (sep : ascii) :
  Split s sep !! 0%nat = Some (Cut s sep).1.
Proof.
  rewrite Split_Cut. destruct (Cut s sep) as [before [after |]]; reflexivity.
Qed.

Lemma Split_second (s : string) (sep : ascii) :
  Split s sep !! 1%nat = (fun rest => (Cut rest sep).1) <$> (Cut s sep).2.
Proof.
  rewrite Split_Cut. destruct (Cut s sep) as [before [after |]]; simpl.
  - apply Split_first.
  - reflexivity.
Qed.

Lemma parseVerbosityLevel_Some (val : string) :
  ∃ m, parseVerbosityLevel val = Some m.
Proof. unfold parseVerbosityLevel. destruct (String.eqb _ "MUTE"); eauto. Qed.

Lemma parsePackageName_item (item : string) :
  parsePackageName item
  = (itemName item, itemToken item ≫= parseVerbosityLevel).
Proof.
  unfold parsePackageName, itemName, itemToken.
  rewrite Split_first, Split_second. simpl.
  destruct (Cut item "@").2; reflexivity.
Qed.

Lemma parsePackageSettings_fold (input : string) (d : option OutputSettings) :
  parsePackageSettings input d
  = foldl (fun all item => <[itemName item := itemMask d item]> all)
      ∅ (Split input ",").
Proof.
  unfold parsePackageSettings.
  generalize (∅ : gmap string (option OutputSettings)).
  induction (Split input ",") as [| item items IH]; intros all; simpl;
    [reflexivity |].
  rewrite IH. f_equal.
  rewrite parsePackageName_item. unfold itemMask.
  destruct (itemToken item) as [token |]; simpl; [| reflexivity].
  destruct (parseVerbosityLevel_Some token) as [m ->]. reflexivity.
Qed.

Lemma foldl_insert_lookup {A V : Type} (f : A → string) (g : A → V)
    (l : list A) (m0 : gmap string V) (n : string) :
  foldl (fun m x => <[f x := g x]> m) m0 l !! n
  = match last (filter (fun x => f x = n) l) with
    | Some x => Some (g x)
    | None => m0 !! n
    end.
Proof.
  revert m0. induction l as [| x l IH]; intros m0; simpl; [reflexivity |].
  rewrite IH, filter_cons.
  destruct (decide (f x = n)) as [E | E].
  - rewrite last_cons.
    destruct (last (filter (fun y => f y = n) l)); [reflexivity |].
    rewrite <- E. apply lookup_insert_eq.
  - destruct (last (filter (fun y => f y = n) l)); [reflexivity |].
    by apply lookup_insert_ne.
Qed.

Lemma Cut_None (s : string) (sep : ascii) :
  (Cut s sep).2 = None → (Cut s sep).1 = s.
Proof.
  induction s as [| c s IH]; simpl; [reflexivity |].
  destruct (Ascii.eqb c sep); [discriminate |].
  destruct (Cut s sep) as [before after]; simpl in *.
  intros E. by rewrite IH.
Qed.

Lemma foldl_agree {A B : Type} (f g : B → A → B) (l : list A) (b : B) :
  (∀ x, x ∈ l → ∀ y, f y x = g y x) → foldl f b l = foldl g b l.
Proof.
  revert b. induction l as [| x l IH]; intros b Hfg; simpl; [reflexivity |].
  rewrite Hfg by left. apply IH. intros y Hy. apply Hfg. by right.
Qed.

(** C4, amended: the input is split on [","]; in every item the name is
    the trimmed text before the first ["@"], and the token, present when
    the item holds an ["@"], is the text between the first ["@"] and the
    next one (or the end of the item); the token is resolved by
    [parseVerbosityLevel], an item without token takes the default, and
    each item is inserted in turn, so that the last item of a name decides
    its mask.  When no item holds a second ["@"] this is the parser that
    splits at the first ["@"] only.  With the full default,
    ["*,database@timer"] yields ["*"] at full and ["database"] at
    errors and timers. *)
Theorem parsePackageSettings_last_wins (input : string)
    (d : option OutputSettings) :
  parsePackageSettings input d
  = foldl (fun all item => <[itemName item := itemMask d item]> all)
      ∅ (Split input ",")
  ∧ (∀ n, parsePackageSettings input d !! n
          = itemMask d
              <$> last (filter (fun item => itemName item = n)
                          (Split input ",")))
  ∧ ((∀ item rest, item ∈ Split input "," →
        (Cut item "@").2 = Some rest → (Cut rest "@").2 = None) →
     parsePackageSettings input d = parsePackageSettings_spec input d)
  ∧ parsePackageSettings "*,database@timer" (Some full)
    = {[ "*" := Some full;
         "database" := Some {| Info := false; Timer := true; Error := true |} ]}.
Proof.
  split; [apply parsePackageSettings_fold |].
  split; [| split].
  - intros n. rewrite parsePackageSettings_fold, foldl_insert_lookup.
    rewrite lookup_empty.
    by destruct (last (filter (fun item => itemName item = n) _)).
  - intros Hone. rewrite parsePackageSettings_fold.
    unfold parsePackageSettings_spec. apply foldl_agree.
    intros item Hitem all. unfold itemName, itemMask, itemToken.
    specialize (Hone item).
    destruct (Cut item "@") as [name [rest |]]; simpl in *; [| reflexivity].
    by rewrite (Cut_None rest "@") by eauto.
  - by vm_compute.
Qed.

(** C4, as stated, fails on a second ["@"]: the item ["a@mute@x"] is
    muted by the parser, while splitting it at its first ["@"] only leaves
    the unknown token ["mute@x"], which stands for full verbosity. *)
Lemma parsePackageSettings_second_at :
  parsePackageSettings "a@mute@x" (Some full) = {[ "a" := muted ]}
  ∧ parsePackageSettings_spec "a@mute@x" (Some full) = {[ "a" := Some full ]}
  ∧ parsePackageSettings "a@mute@x" (Some full)
    ≠ parsePackageSettings_spec "a@mute@x" (Some full).
Proof.
  assert (E1 : parsePackageSettings "a@mute@x" (Some full) = {[ "a" := muted ]})
    by (by vm_compute).
  assert (E2 : parsePackageSettings_spec "a@mute@x" (Some full)
               = {[ "a" := Some full ]}) by (by vm_compute).
  rewrite E1, E2. split; [reflexivity |]. split; [reflexivity |].
  intros E. apply (f_equal (fun m => m !! "a")) in E.
  rewrite !lookup_singleton_eq in E. discriminate.
Qed.

(** ** The verbosity parser *)

(** C2: [parseVerbosityLevel] returns a mask for every input, decided by
    the input trimmed and in upper case: ["MUTE"] gives the all-false
    mask, ["ERROR"] errors only, ["TIMER"] errors and timers, and anything
    else, the empty string included, the full mask.  Inputs that agree up
    to letter case give the same mask, and so do an input and the same
    input between runs of white space; so ["mute"], ["MUTE"] and
    [" Mute "] are all muted. *)
Theorem parseVerbosityLevel_total (val : string) :
  (∃ m, parseVerbosityLevel val = Some m)
  ∧ (ToUpper (TrimSpace val) = "MUTE" →
     parseVerbosityLevel val
     = Some {| Info := false; Timer := false; Error := false |})
  ∧ (ToUpper (TrimSpace val) = "ERROR" →
     parseVerbosityLevel val
     = Some {| Info := false; Timer := false; Error := true |})
  ∧ (ToUpper (TrimSpace val) = "TIMER" →
     parseVerbosityLevel val
     = Some {| Info := false; Timer := true; Error := true |})
  ∧ (ToUpper (TrimSpace val) ≠ "MUTE" →
     ToUpper (TrimSpace val) ≠ "ERROR" →
     ToUpper (TrimSpace val) ≠ "TIMER" →
     parseVerbosityLevel val
     = Some {| Info := true; Timer := true; Error := true |})
  ∧ (∀ val', asciiUpper val' = asciiUpper val →
             parseVerbosityLevel val' = parseVerbosityLevel val)
  ∧ (∀ l r, allSpace l = true → allSpace r = true →
            parseVerbosityLevel (l ++ val ++ r) = parseVerbosityLevel val)
  ∧ parseVerbosityLevel "mute"
    = Some {| Info := false; Timer := false; Error := false |}
  ∧ parseVerbosityLevel "MUTE"
    = Some {| Info := false; Timer := false; Error := false |}
  ∧ parseVerbosityLevel " Mute "
    = Some {| Info := false; Timer := false; Error := false |}
  ∧ parseVerbosityLevel ""
    = Some {| Info := true; Timer := true; Error := true |}.
Proof.
  split; [apply parseVerbosityLevel_Some |].
  split; [| split; [| split; [| split]]].
  - unfold parseVerbosityLevel. intros ->. reflexivity.
  - unfold parseVerbosityLevel. intros ->. reflexivity.
  - unfold parseVerbosityLevel. intros ->. reflexivity.
  - unfold parseVerbosityLevel.
    intros HM%String.eqb_neq HE%String.eqb_neq HT%String.eqb_neq.
    by rewrite HM, HE, HT.
  - split; [intros val'; apply parseVerbosityLevel_case |].
    split; [intros l r; apply parseVerbosityLevel_pad |].
    repeat split; reflexivity.
Qed.

(** ** The empty list string *)

(** C8: the empty input yields the mapping with exactly one entry: the
    empty name, bound to the supplied default. *)
Theorem parsePackageSettings_empty_input (d : option OutputSettings) :
  parsePackageSettings "" d = {[ "" := d ]}
  ∧ size (parsePackageSettings "" d) = 1%nat
  ∧ parsePackageSettings "" d !! "" = Some d.
Proof.
  assert (E : parsePackageSettings "" d = {[ "" := d ]}) by reflexivity.
  rewrite E. split; [reflexivity |]. split.
  - apply map_size_singleton.
  - apply lookup_singleton_eq.
Qed.


(** ** Lookup precedence *)

Lemma LoggerSettings_only_star (w : StandardWriter) (m : option OutputSettings)
    (name : string) :
  Settings w = {[ "*" := m ]} → LoggerSettings w name = m.
Proof.
  unfold LoggerSettings. intros ->.
  destruct (decide (name = "*")) as [-> | Hne].
  - rewrite lookup_singleton_eq. reflexivity.
  - rewrite lookup_singleton_ne by congruence.
    rewrite lookup_singleton_eq. reflexivity.
Qed.

(** C1: [LoggerSettings] uses the exact entry of the name when there is
    one, otherwise the entry of ["*"] when there is one, otherwise the
    all-false mask.  Under the mapping that holds only ["*"] every name
    resolves to that entry, and under a mapping with neither entry (the
    empty one among them) every name resolves to all-false. *)
Theorem LoggerSettings_precedence (w : StandardWriter) (p : string) :
  (∀ m, Settings w !! p = Some m → LoggerSettings w p = m)
  ∧ (Settings w !! p = None →
     ∀ m, Settings w !! "*" = Some m → LoggerSettings w p = m)
  ∧ (Settings w !! p = None → Settings w !! "*" = None →
     LoggerSettings w p
     = Some {| Info := false; Timer := false; Error := false |})
  ∧ (∀ m, Settings w = {[ "*" := m ]} → LoggerSettings w p = m)
  ∧ (Settings w = ∅ →
     LoggerSettings w p
     = Some {| Info := false; Timer := false; Error := false |}).
Proof.
  unfold LoggerSettings.
  repeat split.
  - intros m ->. reflexivity.
  - intros -> m ->. reflexivity.
  - intros -> ->. reflexivity.
  - intros m. apply LoggerSettings_only_star.
  - intros ->. rewrite !lookup_empty. reflexivity.
Qed.

(** ** The level test *)

(** C3: [IsEnabled] reads, in the mask that [LoggerSettings] resolves for
    the name, the field of the level: [Info] for ["INFO"], [Error] for
    ["ERROR"], [Timer] for ["TIMER"].  It is true exactly when that mask
    exists and has the field set, and for every other level it is false,
    whatever the mask. *)
Theorem IsEnabled_level (w : StandardWriter) (name level : string) :
  IsEnabled w name "INFO" = Info <$> LoggerSettings w name
  ∧ IsEnabled w name "ERROR" = Error <$> LoggerSettings w name
  ∧ IsEnabled w name "TIMER" = Timer <$> LoggerSettings w name
  ∧ (¬ knownLevel level → IsEnabled w name level = Some false)
  ∧ (IsEnabled w name level = Some true ↔
     ∃ m, LoggerSettings w name = Some m
          ∧ ((level = "INFO" ∧ Info m = true)
             ∨ (level = "ERROR" ∧ Error m = true)
             ∨ (level = "TIMER" ∧ Timer m = true))).
Proof.
  unfold IsEnabled, knownLevel.
  split; [reflexivity |]. split; [reflexivity |]. split; [reflexivity |].
  destruct (String.eqb_spec level "INFO") as [-> | HI].
  { split; [tauto |]. split.
    - destruct (LoggerSettings w name) as [m |]; [| discriminate].
      intros [= E]. exists m. tauto.
    - intros (m & -> & [[_ E] | [[[=] _] | [[=] _]]]). simpl. by rewrite E. }
  destruct (String.eqb_spec level "ERROR") as [-> | HE].
  { split; [tauto |]. split.
    - destruct (LoggerSettings w name) as [m |]; [| discriminate].
      intros [= E]. exists m. tauto.
    - intros (m & -> & [[[=] _] | [[_ E] | [[=] _]]]). simpl. by rewrite E. }
  destruct (String.eqb_spec level "TIMER") as [-> | HT].
  { split; [tauto |]. split.
    - destruct (LoggerSettings w name) as [m |]; [| discriminate].
      intros [= E]. exists m. tauto.
    - intros (m & -> & [[[=] _] | [[[=] _] | [_ E]]]). simpl. by rewrite E. }
  split; [reflexivity |]. split.
  - discriminate.
  - intros (m & _ & [[E _] | [[E _] | [E _]]]); contradiction.
Qed.

(** ** Construction from the environment *)

Lemma Getenv_unsetOrEmpty (env : Environ) (key : string) :
  unsetOrEmpty env key ↔ Getenv env key = "".
Proof.
  unfold unsetOrEmpty, Getenv. split.
  - intros [-> | ->]; reflexivity.
  - destruct (env !! key) as [v |]; simpl; [| by left].
    intros ->. by right.
Qed.

Lemma parsePackageSettings_star (d : option OutputSettings) :
  parsePackageSettings "*" d = {[ "*" := d ]}.
Proof. reflexivity. Qed.

Lemma parseVerbosityLevel_empty : parseVerbosityLevel "" = Some full.
Proof. reflexivity. Qed.


(** C5: when [LOG] is unset or empty, the writer built by
    [NewStandardOutput] holds the settings parsed from ["*"], so every
    name resolves to the default mask, which is [parseVerbosityLevel] of
    [LOG_LEVEL]; when [LOG_LEVEL] is unset or empty too, that mask is the
    full one and every logger is enabled at INFO, ERROR and TIMER. *)
Theorem NewStandardOutput_defaults (env : Environ) (file : File) :
  unsetOrEmpty env "LOG" →
  let w := NewStandardOutput env file in
  let d := parseVerbosityLevel (Getenv env "LOG_LEVEL") in
  Settings w = parsePackageSettings "*" d
  ∧ (∀ name, LoggerSettings w name = d)
  ∧ (unsetOrEmpty env "LOG_LEVEL" →
     d = Some full
     ∧ ∀ name level, knownLevel level → IsEnabled w name level = Some true).
Proof.
  intros HLOG w d.
  apply Getenv_unsetOrEmpty in HLOG.
  assert (HS : Settings w = parsePackageSettings "*" d).
  { unfold w, NewStandardOutput. rewrite HLOG. reflexivity. }
  assert (HL : ∀ name, LoggerSettings w name = d).
  { intros name. apply LoggerSettings_only_star.
    rewrite HS. apply parsePackageSettings_star. }
  split; [exact HS |]. split; [exact HL |].
  intros HLVL. apply Getenv_unsetOrEmpty in HLVL.
  assert (Hd : d = Some full).
  { unfold d. rewrite HLVL. apply parseVerbosityLevel_empty. }
  split; [exact Hd |].
  intros name level [-> | [-> | ->]];
    unfold IsEnabled; rewrite HL, Hd; reflexivity.
Qed.

Lemma NewStandardOutput_defaults_witness :
  IsEnabled (NewStandardOutput ∅ 1%nat) "database" "TIMER" = Some true.
Proof.
  exact (proj2
           (proj2 (proj2 (NewStandardOutput_defaults ∅ 1%nat
                            (or_introl eq_refl)))
              (or_introl eq_refl))
           "database" "TIMER" (or_intror (or_intror eq_refl))).
Defined.


Lemma parsePackageSettings_star_error (d : option OutputSettings) :
  parsePackageSettings "*@error" d
  = {[ "*" := Some {| Info := false; Timer := false; Error := true |} ]}.
Proof. reflexivity. Qed.

Lemma NewStandardOutput_star_error (env : Environ) (file : File) (name : string) :
  Getenv env "LOG" = "*@error" →
  LoggerSettings (NewStandardOutput env file) name
  = Some {| Info := false; Timer := false; Error := true |}.
Proof.
  intros HLOG. apply LoggerSettings_only_star.
  unfold NewStandardOutput. rewrite HLOG. simpl.
  apply parsePackageSettings_star_error.
Qed.

Section Formatting.
Context {U : Universe} {P : Platform}.

(** ** Rendering modes *)

Lemma Format_pretty (w : StandardWriter) (log : Log) :
  ColorsEnabled w = true → Format w log = PrettyFormat w log.
Proof. unfold Format. intros ->. reflexivity. Qed.

Lemma Format_json (w : StandardWriter) (log : Log) (σ : World) :
  ColorsEnabled w = false → Format w log σ = Some (JSONFormat w log, σ).
Proof. unfold Format. intros ->. reflexivity. Qed.

(** C9: a writer built by [NewStandardOutput] has [ColorsEnabled] set;
    [Format] on any writer with [ColorsEnabled] set is [PrettyFormat]; so
    such a writer never renders JSON, which [Format] does only for a
    writer built with the flag cleared. *)
Theorem NewStandardOutput_never_JSON (env : Environ) (file : File)
    (log : Log) (σ : World) :
  ColorsEnabled (NewStandardOutput env file) = true
  ∧ (∀ w, ColorsEnabled w = true → Format w log σ = PrettyFormat w log σ)
  ∧ Format (NewStandardOutput env file) log σ
    = PrettyFormat (NewStandardOutput env file) log σ
  ∧ (∀ w, ColorsEnabled w = false →
          Format w log σ = Some (JSONFormat w log, σ)).
Proof.
  split; [reflexivity |]. split.
  - intros w Hw. by rewrite Format_pretty.
  - split; [reflexivity |]. intros w Hw. by apply Format_json.
Qed.


(** C10: the timestamp that [PrettyFormat] prints is the reading of the
    wall clock, and the record's [Time] has no influence: replacing it by
    any other value gives the same text and the same world. *)
Theorem PrettyFormat_ignores_Time (w : StandardWriter) (log : Log)
    (t : time_Time) (σ : World) :
  PrettyFormat w (withTime t log) σ = PrettyFormat w log σ
  ∧ (∀ log',
       Package log' = Package log → Level log' = Level log →
       Message log' = Message log → Attrs log' = Attrs log →
       ElapsedNano log' = ElapsedNano log →
       PrettyFormat w log' σ = PrettyFormat w log σ)
  ∧ ∃ rest σ',
      PrettyFormat w log σ
      = Some (Time_Format (clock σ 0%nat) "15:04:05.000" ++ " " ++ rest, σ').
Proof.
  split; [reflexivity |]. split.
  - intros log' HP HL HM HA HE.
    unfold PrettyFormat, PrettyLabel, PrettyLabelExt.
    by rewrite HP, HL, HM, HA, HE.
  - unfold PrettyFormat, PrettyAttrs, mbind, M_bind, time_Now, range.
    destruct (Attrs log) as [attrs |]; simpl; eauto.
Qed.


(** ** The scenario [LOG="*@error"] *)

Lemma Write_suppressed (w : StandardWriter) (log : Log) (σ : World) :
  IsEnabled w (Package log) (Level log) = Some false →
  Write w log σ = Some (tt, σ).
Proof. unfold Write. intros ->. reflexivity. Qed.

(** C6: under the settings parsed from [LOG="*@error"], and for every
    logger, [Write] drops the record that [Info] builds and writes nothing;
    the record that [Error] builds from ["bad %d"] and 5 has the message
    ["bad 5"], and [Write] appends to the target one line, which carries
    that message.  The operand 5 is any value that [Sprintf] renders so. *)
Theorem LOG_error_scenario (env : Environ) (file : File) (logger : Logger)
    (msg : string) (args : list value) (five : value) (σ : World) :
  Getenv env "LOG" = "*@error" →
  Sprintf "bad %d" (SplitAttrs [five]).1 = "bad 5" →
  let w := NewStandardOutput env file in
  (∃ log σ1,
     (∀ dispatch,
        Logger_Info dispatch logger msg args σ = dispatch log σ1)
     ∧ Package log = Name logger
     ∧ Level log = "INFO"
     ∧ Write w log σ1 = Some (tt, σ1)
     ∧ files σ1 = files σ)
  ∧ (∃ log σ1 line σ',
       (∀ dispatch,
          Logger_Error dispatch logger "bad %d" [five] σ = dispatch log σ1)
       ∧ Package log = Name logger
       ∧ Level log = "ERROR"
       ∧ Message log = "bad 5"
       ∧ Write w log σ1 = Some (tt, σ')
       ∧ (∃ attrs,
            line = Time_Format (clock σ 1%nat) "15:04:05.000" ++ " "
                     ++ PrettyLabel w log ++ " " ++ "bad 5" ++ attrs)
       ∧ files σ' = fun f =>
           if decide (f = file) then files σ f ++ line ++ newline
           else files σ f).
Proof.
  intros HLOG Hfmt w.
  assert (HL : ∀ name, LoggerSettings w name
                       = Some {| Info := false; Timer := false; Error := true |}).
  { intros name. by apply NewStandardOutput_star_error. }
  split.
  - unfold Logger_Info, Logger_Log.
    destruct (SplitAttrs args) as [v attrs].
    eexists _, _. split; [intros dispatch; reflexivity |]. simpl.
    repeat split.
    apply Write_suppressed. unfold IsEnabled. simpl. by rewrite HL.
  - unfold Logger_Error, Logger_Log.
    destruct (SplitAttrs [five]) as [v [attrs |]]; simpl in Hfmt;
      rewrite Hfmt;
      (eexists _, _, _, _; split; [intros dispatch; reflexivity |]); simpl;
      (split; [reflexivity |]); (split; [reflexivity |]);
      (split; [reflexivity |]);
      unfold Write, IsEnabled; simpl; rewrite HL; simpl;
      unfold Format, PrettyFormat, PrettyAttrs, mbind, M_bind, time_Now,
        range, Fprintln; simpl;
      (split; [reflexivity |]); split; eauto.
Qed.

End Formatting.

(** On the small platform the line that [Error] leaves in the file can be
    computed: the clock reads 0 for the record and 1 for the line. *)
Example Demo_bad_5 :
  (Logger_Error (P := Demo.platform)
     (Write (P := Demo.platform) (NewStandardOutput Demo.env 1%nat))
     (New "database") "bad %d" [5%Z] Demo.world)
    ≫= (fun r => Some (files r.2 1%nat))
  = Some ("1 database(!): bad 5" ++ newline).
Proof. vm_compute. reflexivity. Qed.

(** The scenario on the small platform: the logger [database] says
    [ready] at INFO under [LOG="*@error"]. *)
Lemma LOG_error_scenario_witness :
  ∃ log σ1,
    (∀ dispatch,
       Logger_Info (P := Demo.platform) dispatch (New "database") "ready" []
         Demo.world = dispatch log σ1)
    ∧ Package log = "database"
    ∧ Level log = "INFO"
    ∧ Write (P := Demo.platform) (NewStandardOutput Demo.env 1%nat) log σ1
      = Some (tt, σ1)
    ∧ files σ1 = files Demo.world.
Proof.
  apply (LOG_error_scenario (P := Demo.platform) Demo.env 1%nat
           (New "database") "ready" [] 5%Z Demo.world).
  - vm_compute. reflexivity.
  - vm_compute. reflexivity.
Defined.



(** * Further properties *)

(** ** The list parser as a whole *)

Lemma Split_nonempty (s : string) (sep : ascii) : Split s sep ≠ [].
Proof.
  destruct s as [| c s]; simpl; [discriminate |].
  destruct (Ascii.eqb c sep); [discriminate |].
  destruct (Split s sep); discriminate.
Qed.

Lemma Split_append (a b : string) (sep : ascii) :
  Split (a ++ String sep b) sep = (Split a sep ++ Split b sep)%list.
Proof.
  induction a as [| c a IH].
  - rewrite append_nil_l. simpl. by rewrite Ascii.eqb_refl.
  - rewrite append_cons. simpl. rewrite IH.
    destruct (Ascii.eqb c sep); [reflexivity |].
    destruct (Split a sep) as [| piece pieces] eqn:E; [| reflexivity].
    by apply Split_nonempty in E.
Qed.

Lemma Split_length (s : string) (sep : ascii) :
  length (Split s sep) = S (countByte sep s).
Proof.
  induction s as [| c s IH]; simpl; [reflexivity |].
  destruct (Ascii.eqb c sep); simpl; [by rewrite IH |].
  destruct (Split s sep) as [| piece pieces] eqn:E; simpl in *; lia.
Qed.

Lemma parsePackageSettings_lookup (input : string) (d : option OutputSettings)
    (n : string) :
  parsePackageSettings input d !! n
  = itemMask d
      <$> last (filter (fun item => itemName item = n) (Split input ",")).
Proof.
  rewrite parsePackageSettings_fold, foldl_insert_lookup, lookup_empty.
  by destruct (last (filter (fun item => itemName item = n) _)).
Qed.

Lemma foldl_insert_union {A V : Type} (f : A → string) (g : A → V)
    (l : list A) (m0 : gmap string V) :
  foldl (fun m x => <[f x := g x]> m) m0 l
  = foldl (fun m x => <[f x := g x]> m) ∅ l ∪ m0.
Proof.
  apply map_eq. intros n.
  rewrite lookup_union, !foldl_insert_lookup, lookup_empty.
  destruct (last (filter (fun x => f x = n) l)); simpl.
  - by destruct (m0 !! n).
  - by destruct (m0 !! n).
Qed.

Lemma foldl_insert_size {A V : Type} (f : A → string) (g : A → V)
    (l : list A) (m0 : gmap string V) :
  (size (foldl (fun m x => <[f x := g x]> m) m0 l) ≤ size m0 + length l)%nat.
Proof.
  revert m0. induction l as [| x l IH]; intros m0; simpl; [lia |].
  etrans; [apply IH |].
  destruct (m0 !! f x) as [v |] eqn:E.
  - rewrite map_size_insert_Some by done. lia.
  - rewrite map_size_insert_None by done. lia.
Qed.

Lemma last_filter {A : Type} (P : A → Prop) `{∀ x, Decision (P x)}
    (l : list A) (x : A) :
  last l = Some x → P x → last (filter P l) = Some x.
Proof.
  intros [l' ->]%last_Some HP.
  rewrite filter_app, filter_cons_True, filter_nil by done.
  apply last_snoc.
Qed.

(** X6: a list string made of two list strings joined by a comma parses
    to the union of their mappings, the second one winning on a shared
    name; a trailing comma therefore adds the empty name at the default
    mask and changes nothing else. *)
Theorem parsePackageSettings_append (a b : string) (d : option OutputSettings) :
  parsePackageSettings (a ++ "," ++ b) d
  = parsePackageSettings b d ∪ parsePackageSettings a d
  ∧ parsePackageSettings (a ++ ",") d
    = <["" := d]> (parsePackageSettings a d).
Proof.
  assert (E : ∀ b', parsePackageSettings (a ++ "," ++ b') d
                    = parsePackageSettings b' d ∪ parsePackageSettings a d).
  { intros b'. rewrite !parsePackageSettings_fold.
    change ("," ++ b') with (String "," b').
    rewrite Split_append, foldl_app. apply foldl_insert_union. }
  split; [apply E |].
  change (a ++ ",") with (a ++ "," ++ ""). rewrite E.
  assert (E0 : parsePackageSettings "" d = {[ "" := d ]}) by reflexivity.
  rewrite E0. symmetry. apply insert_union_singleton_l.
Qed.

(** X7: the mapping is never empty and has at most one entry per item,
    that is at most one more than the input has commas; the name of the
    last item is always present, with that item's mask. *)
Theorem parsePackageSettings_size (input : string) (d : option OutputSettings) :
  (1 ≤ size (parsePackageSettings input d))%nat
  ∧ (size (parsePackageSettings input d) ≤ S (countByte "," input))%nat
  ∧ ∃ item, last (Split input ",") = Some item
            ∧ parsePackageSettings input d !! itemName item
              = Some (itemMask d item).
Proof.
  assert (HL : ∃ item, last (Split input ",") = Some item
            ∧ parsePackageSettings input d !! itemName item
              = Some (itemMask d item)).
  { destruct (last (Split input ",")) as [item |] eqn:E.
    - exists item. split; [reflexivity |].
      rewrite parsePackageSettings_lookup.
      by rewrite (last_filter _ _ item).
    - apply last_None in E. by apply Split_nonempty in E. }
  split; [| split; [| exact HL]].
  - destruct HL as (item & _ & HL).
    destruct (size (parsePackageSettings input d)) eqn:E; [| lia].
    apply map_size_empty_iff in E. rewrite E, lookup_empty in HL.
    discriminate.
  - rewrite parsePackageSettings_fold, <- Split_length.
    etrans; [apply foldl_insert_size |]. rewrite map_size_empty. lia.
Qed.

(** ** What a parsed name looks like *)

Lemma hasByte_append (c : ascii) (s1 s2 : string) :
  hasByte c (s1 ++ s2) = hasByte c s1 || hasByte c s2.
Proof.
  induction s1 as [| c1 s1 IH]; [reflexivity |].
  rewrite append_cons. simpl. by rewrite IH, orb_assoc.
Qed.

Lemma hasByte_rev (c : ascii) (s : string) :
  hasByte c (String.rev s) = hasByte c s.
Proof.
  induction s as [| c1 s IH]; [reflexivity |].
  rewrite rev_cons, hasByte_append, IH. simpl.
  rewrite orb_false_r. apply orb_comm.
Qed.

Lemma rev_rev (s : string) : String.rev (String.rev s) = s.
Proof.
  induction s as [| c s IH]; [reflexivity |].
  by rewrite rev_cons, rev_append, IH.
Qed.

Lemma length_append (s1 s2 : string) :
  String.length (s1 ++ s2) = (String.length s1 + String.length s2)%nat.
Proof.
  induction s1 as [| c s1 IH]; [reflexivity |].
  rewrite append_cons. simpl. by rewrite IH.
Qed.

Section TrimFrontMore.
Variable sp2 : ascii → ascii → bool.
Variable sp3 : ascii → ascii → ascii → bool.

(** What is dropped is a prefix. *)
Lemma trim_front_suffix (s : string) :
  ∃ dropped, s = dropped ++ trim_front sp2 sp3 s.
Proof.
  remember (String.length s) as n eqn:Hn.
  revert s Hn. induction n as [n IH] using lt_wf_ind. intros s Hn.
  destruct s as [| c1 s1]; [by exists "" |].
  simpl in Hn. simpl.
  destruct (asciiSpace c1).
  { destruct (IH (String.length s1)) with (s := s1) as [y Hy];
      [lia | reflexivity |].
    exists (String c1 y). by rewrite append_cons, <- Hy. }
  destruct s1 as [| c2 s2]; [by exists "" |].
  simpl in Hn.
  destruct (sp2 c1 c2).
  { destruct (IH (String.length s2)) with (s := s2) as [y Hy];
      [lia | reflexivity |].
    exists (String c1 (String c2 y)). by rewrite !append_cons, <- Hy. }
  destruct s2 as [| c3 s3]; [by exists "" |].
  simpl in Hn.
  destruct (sp3 c1 c2 c3); [| by exists ""].
  destruct (IH (String.length s3)) with (s := s3) as [y Hy];
    [lia | reflexivity |].
  exists (String c1 (String c2 (String c3 y))).
  by rewrite !append_cons, <- Hy.
Qed.

Lemma trim_front_length (s : string) :
  (String.length (trim_front sp2 sp3 s) ≤ String.length s)%nat.
Proof.
  destruct (trim_front_suffix s) as [y Hy].
  rewrite Hy at 2. rewrite length_append. lia.
Qed.

Lemma trim_front_hasByte (c : ascii) (s : string) :
  hasByte c (trim_front sp2 sp3 s) = true → hasByte c s = true.
Proof.
  destruct (trim_front_suffix s) as [y Hy].
  intros E. rewrite Hy, hasByte_append, E. apply orb_true_r.
Qed.

(** Trimming what is trimmed changes nothing. *)
Lemma trim_front_idem (s : string) :
  trim_front sp2 sp3 (trim_front sp2 sp3 s) = trim_front sp2 sp3 s.
Proof.
  remember (String.length s) as n eqn:Hn.
  revert s Hn. induction n as [n IH] using lt_wf_ind. intros s Hn.
  destruct s as [| c1 s1]; [reflexivity |].
  simpl in Hn. simpl.
  destruct (asciiSpace c1) eqn:E1.
  { apply (IH (String.length s1)); [lia | reflexivity]. }
  destruct s1 as [| c2 s2]; [simpl; by rewrite E1 |].
  simpl in Hn.
  destruct (sp2 c1 c2) eqn:E2.
  { apply (IH (String.length s2)); [lia | reflexivity]. }
  destruct s2 as [| c3 s3]; [simpl; by rewrite E1, E2 |].
  simpl in Hn.
  destruct (sp3 c1 c2 c3) eqn:E3.
  { apply (IH (String.length s3)); [lia | reflexivity]. }
  simpl. by rewrite E1, E2, E3.
Qed.

(** A prefix of a string that starts with no white space starts with no
    white space. *)
Lemma trim_front_prefix (p x : string) :
  trim_front sp2 sp3 (p ++ x) = p ++ x → trim_front sp2 sp3 p = p.
Proof.
  destruct p as [| c1 p1]; [reflexivity |].
  rewrite append_cons. intros Hfix.
  assert (Hlen : ∀ t, t = String c1 (p1 ++ x) →
    ∀ r, (String.length r < String.length t)%nat →
         trim_front sp2 sp3 r ≠ t).
  { intros t -> r Hr E. pose proof (trim_front_length r) as Hl.
    rewrite E in Hl. lia. }
  simpl in Hfix. simpl.
  destruct (asciiSpace c1).
  { exfalso. apply (Hlen _ eq_refl (p1 ++ x)); [simpl; lia | exact Hfix]. }
  destruct p1 as [| c2 p2]; [reflexivity |].
  rewrite append_cons in Hfix, Hlen.
  destruct (sp2 c1 c2).
  { exfalso. apply (Hlen _ eq_refl (p2 ++ x)); [simpl; lia | exact Hfix]. }
  destruct p2 as [| c3 p3]; [reflexivity |].
  rewrite append_cons in Hfix, Hlen.
  destruct (sp3 c1 c2 c3); [| reflexivity].
  exfalso. apply (Hlen _ eq_refl (p3 ++ x)); [simpl; lia | exact Hfix].
Qed.

End TrimFrontMore.

Lemma TrimRight_prefix (s : string) : ∃ dropped, s = TrimRight s ++ dropped.
Proof.
  unfold TrimRight.
  destruct (trim_front_suffix (fun c2 c1 => space2 c1 c2)
              (fun c3 c2 c1 => space3 c1 c2 c3) (String.rev s)) as [y Hy].
  exists (String.rev y).
  rewrite <- rev_append, <- Hy. by rewrite rev_rev.
Qed.

Lemma TrimRight_idem (s : string) : TrimRight (TrimRight s) = TrimRight s.
Proof. unfold TrimRight. by rewrite rev_rev, trim_front_idem. Qed.

Lemma TrimSpace_idem (s : string) : TrimSpace (TrimSpace s) = TrimSpace s.
Proof.
  unfold TrimSpace.
  assert (E : TrimLeft (TrimRight (TrimLeft s)) = TrimRight (TrimLeft s)).
  { destruct (TrimRight_prefix (TrimLeft s)) as [x Hx].
    apply (trim_front_prefix _ _ _ x). rewrite <- Hx.
    apply trim_front_idem. }
  rewrite E. apply TrimRight_idem.
Qed.

Lemma TrimSpace_hasByte (c : ascii) (s : string) :
  hasByte c (TrimSpace s) = true → hasByte c s = true.
Proof.
  unfold TrimSpace, TrimRight, TrimLeft. rewrite hasByte_rev.
  intros E%trim_front_hasByte. rewrite hasByte_rev in E.
  by apply trim_front_hasByte in E.
Qed.

Lemma Split_hasByte (s : string) (sep : ascii) (piece : string) :
  piece ∈ Split s sep → hasByte sep piece = false.
Proof.
  revert piece. induction s as [| c s IH]; intros piece; simpl.
  - by intros ->%list_elem_of_singleton.
  - destruct (Ascii.eqb c sep) eqn:E.
    + intros [-> | Hin]%elem_of_cons; [reflexivity | by apply IH].
    + destruct (Split s sep) as [| p ps]; simpl.
      * intros ->%list_elem_of_singleton. simpl. by rewrite E.
      * intros [-> | Hin]%elem_of_cons.
        -- simpl. rewrite E. apply IH. by left.
        -- apply IH. by right.
Qed.

Lemma Cut_hasByte (s : string) (sep : ascii) : hasByte sep (Cut s sep).1 = false.
Proof.
  induction s as [| c s IH]; simpl; [reflexivity |].
  destruct (Ascii.eqb c sep) eqn:E; [reflexivity |].
  destruct (Cut s sep) as [before after]. simpl in *. by rewrite E.
Qed.

Lemma Cut_prefix (s : string) (sep : ascii) (c : ascii) :
  hasByte c (Cut s sep).1 = true → hasByte c s = true.
Proof.
  induction s as [| c1 s IH]; simpl; [done |].
  destruct (Ascii.eqb c1 sep); [done |].
  destruct (Cut s sep) as [before after]. simpl in *.
  intros [E | E]%orb_true_iff; apply orb_true_iff; auto.
Qed.

Lemma not_true_false (b : bool) : (b = true → False) → b = false.
Proof. by destruct b; [intros [] |]. Qed.

(** X5: every name that the parser binds is trimmed (trimming it again
    changes nothing) and holds neither a comma nor an ["@"]; a package
    whose name is not of that form can only be reached by ["*"]. *)
Theorem parsePackageSettings_names (input : string)
    (d : option OutputSettings) (name : string) :
  is_Some (parsePackageSettings input d !! name) →
  TrimSpace name = name
  ∧ hasByte "," name = false
  ∧ hasByte "@" name = false.
Proof.
  rewrite parsePackageSettings_lookup. intros [v Hv].
  destruct (last (filter (fun item => itemName item = name) _))
    as [item |] eqn:E; [| discriminate].
  apply last_Some_elem_of, list_elem_of_filter in E as [<- Hitem].
  unfold itemName. split; [apply TrimSpace_idem |]. split.
  - apply not_true_false. intros H%TrimSpace_hasByte%Cut_prefix.
    by rewrite (Split_hasByte _ _ _ Hitem) in H.
  - apply not_true_false. intros H%TrimSpace_hasByte.
    by rewrite Cut_hasByte in H.
Qed.

(** ** Masks and resolution under [NewStandardOutput] *)

Lemma parseVerbosityLevel_tokenMask (val : string) :
  ∃ m, parseVerbosityLevel val = Some m ∧ tokenMask m.
Proof.
  unfold parseVerbosityLevel, tokenMask.
  destruct (String.eqb _ "MUTE"); [eauto 6 |].
  destruct (String.eqb _ "TIMER"), (String.eqb _ "ERROR"); simpl; eauto 8.
Qed.

Lemma itemMask_tokenMask (val item : string) :
  ∃ m, itemMask (parseVerbosityLevel val) item = Some m ∧ tokenMask m.
Proof.
  unfold itemMask. destruct (itemToken item);
    apply parseVerbosityLevel_tokenMask.
Qed.

Lemma NewStandardOutput_Settings (env : Environ) (file : File) :
  Settings (NewStandardOutput env file)
  = parsePackageSettings (effectiveLOG env)
      (parseVerbosityLevel (Getenv env "LOG_LEVEL")).
Proof.
  unfold NewStandardOutput, effectiveLOG. simpl.
  by destruct (String.eqb (Getenv env "LOG") "").
Qed.

Lemma NewStandardOutput_resolves (env : Environ) (file : File) (p : string) :
  let items := Split (effectiveLOG env) "," in
  let d := parseVerbosityLevel (Getenv env "LOG_LEVEL") in
  LoggerSettings (NewStandardOutput env file) p
  = match last (filter (fun item => itemName item = p) items) with
    | Some item => itemMask d item
    | None =>
        match last (filter (fun item => itemName item = "*") items) with
        | Some item => itemMask d item
        | None => muted
        end
    end.
Proof.
  intros items d. unfold LoggerSettings.
  rewrite NewStandardOutput_Settings, !parsePackageSettings_lookup.
  fold items. fold d.
  destruct (last (filter (fun item => itemName item = p) items)); simpl;
    [reflexivity |].
  by destruct (last (filter (fun item => itemName item = "*") items)).
Qed.

Lemma NewStandardOutput_tokenMask (env : Environ) (file : File) (p : string) :
  ∃ m, LoggerSettings (NewStandardOutput env file) p = Some m ∧ tokenMask m.
Proof.
  rewrite NewStandardOutput_resolves.
  destruct (last (filter (fun item => itemName item = p) _));
    [apply itemMask_tokenMask |].
  destruct (last (filter (fun item => itemName item = "*") _));
    [apply itemMask_tokenMask |].
  eexists. split; [reflexivity |]. by left.
Qed.

(** X9: how a writer built by [NewStandardOutput] resolves a name, read
    off the environment: the last item of the list string with that name
    decides, else the last item named ["*"], else the name is muted; an
    item with a token takes the mask of the token and an item without
    takes the mask of [LOG_LEVEL].  When no item is named after the
    package or ["*"], the package is disabled at every level. *)
Theorem NewStandardOutput_resolution (env : Environ) (file : File)
    (p : string) :
  let items := Split (effectiveLOG env) "," in
  let d := parseVerbosityLevel (Getenv env "LOG_LEVEL") in
  LoggerSettings (NewStandardOutput env file) p
  = match last (filter (fun item => itemName item = p) items) with
    | Some item => itemMask d item
    | None =>
        match last (filter (fun item => itemName item = "*") items) with
        | Some item => itemMask d item
        | None => muted
        end
    end
  ∧ ((∀ item, item ∈ items → itemName item ≠ p ∧ itemName item ≠ "*") →
     ∀ level, IsEnabled (NewStandardOutput env file) p level = Some false).
Proof.
  intros items d. split; [apply NewStandardOutput_resolves |].
  intros Hnone level.
  assert (Hno : ∀ n, (∀ item, item ∈ items → itemName item ≠ n) →
                     last (filter (fun item => itemName item = n) items) = None).
  { intros n Hn.
    destruct (last (filter (fun item => itemName item = n) items))
      as [item |] eqn:E; [| reflexivity].
    apply last_Some_elem_of, list_elem_of_filter in E as [E Hitem].
    by destruct (Hn item Hitem). }
  unfold IsEnabled. rewrite NewStandardOutput_resolves. fold items.
  rewrite !Hno by (intros item Hitem; by apply Hnone).
  simpl.
  by destruct (String.eqb level "INFO"), (String.eqb level "ERROR"),
    (String.eqb level "TIMER").
Qed.

(** X4: under a writer built by [NewStandardOutput] every name resolves
    to one of the four masks of [parseVerbosityLevel], never to nil.  So
    the levels are nested: a package enabled at INFO is enabled at TIMER,
    one enabled at TIMER is enabled at ERROR, and [IsEnabled] returns
    without a panic at every level. *)
Theorem NewStandardOutput_tiers (env : Environ) (file : File) (p : string) :
  (∃ m, LoggerSettings (NewStandardOutput env file) p = Some m ∧ tokenMask m)
  ∧ (IsEnabled (NewStandardOutput env file) p "INFO" = Some true →
     IsEnabled (NewStandardOutput env file) p "TIMER" = Some true)
  ∧ (IsEnabled (NewStandardOutput env file) p "TIMER" = Some true →
     IsEnabled (NewStandardOutput env file) p "ERROR" = Some true)
  ∧ (∀ level, ∃ b, IsEnabled (NewStandardOutput env file) p level = Some b).
Proof.
  destruct (NewStandardOutput_tokenMask env file p) as (m & Hm & Hmask).
  split; [eauto |].
  unfold IsEnabled. rewrite Hm. simpl.
  split; [| split].
  - destruct Hmask as [-> | [-> | [-> | ->]]]; simpl; congruence.
  - destruct Hmask as [-> | [-> | [-> | ->]]]; simpl; congruence.
  - intros level.
    destruct (String.eqb level "INFO"), (String.eqb level "ERROR"),
      (String.eqb level "TIMER"); eauto.
Qed.

Lemma Cut_hasByte_Some (s : string) (sep : ascii) :
  hasByte sep s = true → ∃ rest, (Cut s sep).2 = Some rest.
Proof.
  induction s as [| c s IH]; simpl; [done |].
  destruct (Ascii.eqb c sep); simpl; [eauto |].
  intros [rest E]%IH. destruct (Cut s sep) as [before after]. simpl in *.
  eauto.
Qed.

(** X8: when every item of [LOG] carries an ["@"], [LOG_LEVEL] has no
    influence: two environments with the same [LOG] give the same
    writer. *)
Theorem LOG_LEVEL_unused (env1 env2 : Environ) (file : File) :
  Getenv env1 "LOG" = Getenv env2 "LOG" →
  (∀ item, item ∈ Split (Getenv env1 "LOG") "," → hasByte "@" item = true) →
  NewStandardOutput env1 file = NewStandardOutput env2 file.
Proof.
  intros HLOG Htok.
  assert (E : Settings (NewStandardOutput env1 file)
              = Settings (NewStandardOutput env2 file)).
  { assert (Hne : String.eqb (Getenv env1 "LOG") "" = false).
    { apply String.eqb_neq. intros E0. rewrite E0 in Htok.
      specialize (Htok "" ltac:(by left)). discriminate. }
    rewrite !NewStandardOutput_Settings. unfold effectiveLOG.
    rewrite <- HLOG, Hne, !parsePackageSettings_fold.
    apply foldl_agree. intros item Hitem all. f_equal.
    unfold itemMask, itemToken.
    destruct (Cut_hasByte_Some item "@" (Htok item Hitem)) as [rest ->].
    reflexivity. }
  unfold NewStandardOutput in *. simpl in E. by rewrite E.
Qed.

Section WriterMore.
Context {U : Universe} {P : Platform}.

(** ** What the writer does to the world *)

Lemma foldl_renderAttr (l : list (string * value)) (acc : string) :
  foldl (fun result '(key, val) =>
           result ++ " " ++ key ++ "=" ++ formatValue val) acc l
  = acc ++ foldr (fun entry rest => renderAttr entry ++ rest) "" l.
Proof.
  revert acc. induction l as [| [key val] l IH]; intros acc; simpl.
  - by rewrite append_nil_r.
  - rewrite IH. unfold renderAttr. simpl. by rewrite !append_assoc.
Qed.

Lemma PrettyAttrs_concat (w : StandardWriter) (attrs : AttrsMap) (σ : World) :
  PrettyAttrs w (Some attrs) σ
  = Some (foldr (fun entry rest => renderAttr entry ++ rest) ""
            (rangeOrder σ attrs), σ).
Proof.
  unfold PrettyAttrs, mbind, M_bind, range, mret, M_ret.
  by rewrite foldl_renderAttr, append_nil_l.
Qed.

Lemma PrettyAttrs_pure (w : StandardWriter) (attrs : option AttrsMap)
    (σ : World) :
  ∃ s, PrettyAttrs w attrs σ = Some (s, σ).
Proof.
  destruct attrs as [attrs |]; [| by exists ""].
  rewrite PrettyAttrs_concat. eauto.
Qed.

Lemma Format_frame (w : StandardWriter) (log : Log) (σ : World) :
  ∃ line σ', Format w log σ = Some (line, σ')
             ∧ files σ' = files σ
             ∧ rangeOrder σ' = rangeOrder σ.
Proof.
  unfold Format. destruct (ColorsEnabled w); [| by eexists _, _].
  unfold PrettyFormat, mbind, M_bind, time_Now.
  match goal with
  | |- context [PrettyAttrs w (Attrs log) ?σ1] =>
      destruct (PrettyAttrs_pure w (Attrs log) σ1) as [s ->]
  end.
  by eexists _, _.
Qed.

Lemma IsEnabled_None (w : StandardWriter) (name level : string) :
  IsEnabled w name level = None
  ↔ knownLevel level ∧ LoggerSettings w name = None.
Proof.
  unfold IsEnabled, knownLevel.
  destruct (String.eqb_spec level "INFO") as [-> | HI].
  { destruct (LoggerSettings w name); simpl; split; try tauto; try done.
    intros [_ [=]]. }
  destruct (String.eqb_spec level "ERROR") as [-> | HE].
  { destruct (LoggerSettings w name); simpl; split; try tauto; try done.
    intros [_ [=]]. }
  destruct (String.eqb_spec level "TIMER") as [-> | HT].
  { destruct (LoggerSettings w name); simpl; split; try tauto; try done.
    intros [_ [=]]. }
  split; [done | tauto].
Qed.

Lemma Write_cases (w : StandardWriter) (log : Log) (σ : World) :
  match IsEnabled w (Package log) (Level log) with
  | None => Write w log σ = None
  | Some false => Write w log σ = Some (tt, σ)
  | Some true =>
      ∃ line σ1 σ',
        Format w log σ = Some (line, σ1)
        ∧ Write w log σ = Some (tt, σ')
        ∧ rangeOrder σ' = rangeOrder σ
        ∧ files σ' = fun f =>
            if decide (f = Target w) then files σ f ++ line ++ newline
            else files σ f
  end.
Proof.
  unfold Write.
  destruct (IsEnabled w (Package log) (Level log)) as [[] |];
    [| reflexivity | reflexivity].
  destruct (Format_frame w log σ) as (line & σ1 & HF & Hfiles & Horder).
  exists line, σ1. unfold mbind, M_bind. rewrite HF.
  eexists. split; [reflexivity |]. split; [reflexivity |]. simpl.
  by rewrite Hfiles, Horder.
Qed.


(** X1: when [Write] returns, every file other than the target is as it
    was; either the record was filtered out and the whole world is as it
    was, or it passed the filter and the target grew by exactly the
    formatted line and a line feed. *)
Theorem Write_appends (w : StandardWriter) (log : Log) (σ σ' : World) :
  Write w log σ = Some (tt, σ') →
  (∀ f, f ≠ Target w → files σ' f = files σ f)
  ∧ ((IsEnabled w (Package log) (Level log) = Some false ∧ σ' = σ)
     ∨ (IsEnabled w (Package log) (Level log) = Some true
        ∧ ∃ line σ1,
            Format w log σ = Some (line, σ1)
            ∧ files σ' (Target w)
              = files σ (Target w) ++ line ++ newline)).
Proof.
  intros HW. pose proof (Write_cases w log σ) as H.
  destruct (IsEnabled w (Package log) (Level log)) as [[] |].
  - destruct H as (line & σ1 & σ'' & HF & HW' & _ & Hfiles).
    rewrite HW' in HW. injection HW as ->.
    rewrite Hfiles. split.
    + intros f Hf. by rewrite decide_False.
    + right. split; [reflexivity |]. exists line, σ1.
      split; [exact HF |]. by rewrite decide_True.
  - rewrite H in HW. injection HW as <-. split; [done | by left].
  - rewrite H in HW. discriminate.
Qed.

(** X10: a writer whose settings hold neither the package nor ["*"]
    writes nothing for it and changes nothing, whatever the level. *)
Theorem Write_denies_by_default (w : StandardWriter) (log : Log) (σ : World) :
  Settings w !! Package log = None →
  Settings w !! "*" = None →
  Write w log σ = Some (tt, σ).
Proof.
  intros Hp Hstar. apply Write_suppressed.
  unfold IsEnabled, LoggerSettings. rewrite Hp, Hstar. simpl.
  by destruct (String.eqb (Level log) "INFO"),
    (String.eqb (Level log) "ERROR"), (String.eqb (Level log) "TIMER").
Qed.

(** X3: a writer built by [NewStandardOutput] never panics, whatever
    the environment and the record: [Write] returns, and no file but the
    one given at construction can differ afterwards. *)
Theorem NewStandardOutput_never_panics (env : Environ) (file : File)
    (log : Log) (σ : World) :
  ∃ σ', Write (NewStandardOutput env file) log σ = Some (tt, σ')
        ∧ (∀ f, f ≠ file → files σ' f = files σ f)
        ∧ rangeOrder σ' = rangeOrder σ.
Proof.
  pose proof (Write_cases (NewStandardOutput env file) log σ) as H.
  destruct (IsEnabled (NewStandardOutput env file) (Package log) (Level log))
    as [[] |] eqn:E.
  - destruct H as (line & σ1 & σ' & _ & HW & Horder & Hfiles).
    exists σ'. split; [exact HW |]. split; [| exact Horder].
    intros f Hf. rewrite Hfiles. by rewrite decide_False.
  - exists σ. by rewrite H.
  - apply IsEnabled_None in E as [_ E].
    destruct (NewStandardOutput_tokenMask env file (Package log))
      as (m & Hm & _).
    rewrite Hm in E. discriminate.
Qed.


(** X11: [PrettyAttrs] never changes the world.  A nil pointer renders
    as the empty string; a map renders as its entries, each as
    [" key=value"], in the order of the [range] loop.  When that order
    meets every entry once, the empty map renders as the empty string, a
    map of one entry as that entry, and the length of the text does not
    depend on the order. *)
Theorem PrettyAttrs_entries (w : StandardWriter) (σ : World) :
  PrettyAttrs w None σ = Some ("", σ)
  ∧ (∀ attrs,
       PrettyAttrs w (Some attrs) σ
       = Some (foldr (fun entry rest => renderAttr entry ++ rest) ""
                 (rangeOrder σ attrs), σ))
  ∧ (validOrder σ →
     PrettyAttrs w (Some ∅) σ = Some ("", σ)
     ∧ (∀ key val,
          PrettyAttrs w (Some {[ key := val ]}) σ
          = Some (" " ++ key ++ "=" ++ formatValue val, σ))
     ∧ (∀ attrs s σ',
          PrettyAttrs w (Some attrs) σ = Some (s, σ') →
          String.length s
          = sum_list_with (fun entry => String.length (renderAttr entry))
              (map_to_list attrs))).
Proof.
  split; [reflexivity |].
  split; [intros attrs; apply PrettyAttrs_concat |].
  intros Hvalid. unfold validOrder, AttrsMap in *. split; [| split].
  - rewrite PrettyAttrs_concat.
    pose proof (Hvalid ∅) as Hperm. rewrite map_to_list_empty in Hperm.
    apply Permutation_nil_r in Hperm. by rewrite Hperm.
  - intros key val. rewrite PrettyAttrs_concat.
    pose proof (Hvalid {[ key := val ]}) as Hperm.
    rewrite map_to_list_singleton in Hperm.
    apply Permutation_singleton_r in Hperm. rewrite Hperm. simpl.
    unfold renderAttr. simpl. by rewrite !append_assoc, append_nil_r.
  - intros attrs s σ'. rewrite PrettyAttrs_concat. intros [= <- _].
    rewrite <- (Hvalid attrs).
    induction (rangeOrder σ attrs) as [| entry l IH]; [reflexivity |].
    simpl. by rewrite length_append, IH.
Qed.

(** X13: the elapsed time of a record shows in the pretty text of TIMER
    records only: for any other level, changing [ElapsedNano] changes
    nothing. *)
Theorem PrettyFormat_elapsed_only_TIMER (w : StandardWriter) (log : Log)
    (e : Z) (σ : World) :
  Level log ≠ "TIMER" →
  PrettyFormat w (withElapsed e log) σ = PrettyFormat w log σ.
Proof.
  intros HT%String.eqb_neq.
  unfold PrettyFormat, PrettyLabel, PrettyLabelExt. simpl. by rewrite HT.
Qed.

End WriterMore.

Section WriterScenes.
Context {U : Universe} {P : Platform}.

(** X15: in JSON mode a record that passes the filter and that
    [json.Marshal] rejects is not lost and raises nothing: [Write] appends
    the object whose field [logger-error] holds the error text, and a line
    feed, and takes no clock reading. *)
Theorem Write_JSON_fallback (w : StandardWriter) (log : Log) (err : string)
    (σ : World) :
  ColorsEnabled w = false →
  IsEnabled w (Package log) (Level log) = Some true →
  json_Marshal log = inr err →
  Write w log σ
  = Some (tt,
          {| clock := clock σ;
             rangeOrder := rangeOrder σ;
             files := fun f =>
               if decide (f = Target w)
               then files σ f
                      ++ ("{ " ++ quote ++ "logger-error" ++ quote ++ ": "
                            ++ quote ++ err ++ quote ++ " }")
                      ++ newline
               else files σ f |}).
Proof.
  intros Hc He Hj. unfold Write. rewrite He.
  unfold mbind, M_bind. rewrite Format_json by done.
  unfold JSONFormat. rewrite Hj. reflexivity.
Qed.

(** X14: [Timer] returns a record of level TIMER with the logger's name,
    an empty message and no attributes, and writes nothing.  Once an
    elapsed time is stored in it, a pretty writer that enables TIMER for
    the name appends one line: the clock reading, the coloured name
    followed by the duration between brackets, a colon, and a space with
    nothing after it. *)
Theorem Logger_Timer_line (w : StandardWriter) (logger : Logger) (σ : World) :
  ∃ log σ1,
    Logger_Timer logger σ = Some (log, σ1)
    ∧ Package log = Name logger
    ∧ Level log = "TIMER"
    ∧ Message log = ""
    ∧ Attrs log = None
    ∧ files σ1 = files σ
    ∧ (ColorsEnabled w = true →
       IsEnabled w (Name logger) "TIMER" = Some true →
       ∀ e, ∃ σ',
         Write w (withElapsed e log) σ1 = Some (tt, σ')
         ∧ files σ' (Target w)
           = files σ (Target w)
               ++ (Time_Format (clock σ 1%nat) "15:04:05.000" ++ " "
                     ++ (colorFor (Name logger) ++ Name logger
                           ++ ("(" ++ reset ++ Duration_String e
                                   ++ colorFor (Name logger) ++ ")")
                           ++ ":" ++ reset)
                     ++ " ")
               ++ newline).
Proof.
  unfold Logger_Timer, mbind, M_bind, Now, time_Now, mret, M_ret.
  eexists _, _. split; [reflexivity |]. simpl.
  repeat (split; [reflexivity |]).
  intros Hc He e. unfold Write. simpl. rewrite He.
  unfold mbind, M_bind. rewrite Format_pretty by done.
  unfold PrettyFormat, PrettyAttrs, PrettyLabel, PrettyLabelExt,
    mbind, M_bind, time_Now, mret, M_ret, Fprintln. simpl.
  eexists. split; [reflexivity |]. simpl.
  by rewrite decide_True.
Qed.

End WriterScenes.

(** ** Items with and without a token *)

Lemma Split_no_sep (s : string) (sep : ascii) :
  hasByte sep s = false → Split s sep = [s].
Proof.
  induction s as [| c s IH]; simpl; [reflexivity |].
  intros [E Hs]%orb_false_iff. rewrite E, IH by done. reflexivity.
Qed.

Lemma Cut_no_sep (s : string) (sep : ascii) :
  hasByte sep s = false → Cut s sep = (s, None).
Proof.
  induction s as [| c s IH]; simpl; [reflexivity |].
  intros [E Hs]%orb_false_iff. rewrite E, IH by done. reflexivity.
Qed.

Lemma Cut_append (a b : string) (sep : ascii) :
  hasByte sep a = false → Cut (a ++ String sep b) sep = (a, Some b).
Proof.
  induction a as [| c a IH].
  - intros _. rewrite append_nil_l. simpl. by rewrite Ascii.eqb_refl.
  - rewrite append_cons. simpl.
    intros [E Ha]%orb_false_iff. rewrite E, IH by done. reflexivity.
Qed.

(** X16: a list string of one item, with no comma and at most one
    ["@"]: the bare name takes the default mask, [name@token] takes the
    mask of the token whatever the default, and [name@], the empty token,
    takes full verbosity and not the default. *)
Theorem parsePackageSettings_single_item (name token : string)
    (d : option OutputSettings) :
  hasByte "," name = false → hasByte "@" name = false →
  hasByte "," token = false → hasByte "@" token = false →
  parsePackageSettings name d = {[ TrimSpace name := d ]}
  ∧ parsePackageSettings (name ++ "@" ++ token) d
    = {[ TrimSpace name := parseVerbosityLevel token ]}
  ∧ parsePackageSettings (name ++ "@") d = {[ TrimSpace name := Some full ]}.
Proof.
  intros Hn1 Hn2 Ht1 Ht2.
  assert (E : ∀ t, hasByte "," t = false → hasByte "@" t = false →
                parsePackageSettings (name ++ "@" ++ t) d
                = {[ TrimSpace name := parseVerbosityLevel t ]}).
  { intros t H1 H2. rewrite parsePackageSettings_fold.
    rewrite Split_no_sep
      by (rewrite hasByte_append, Hn1; simpl; exact H1).
    simpl. unfold itemName, itemMask, itemToken.
    change ("@" ++ t) with (String "@" t).
    rewrite Cut_append by done. simpl.
    rewrite Cut_no_sep by done. simpl. apply insert_empty. }
  split; [| split].
  - rewrite parsePackageSettings_fold, Split_no_sep by done. simpl.
    unfold itemName, itemMask, itemToken. rewrite Cut_no_sep by done.
    simpl. apply insert_empty.
  - by apply E.
  - change (name ++ "@") with (name ++ "@" ++ ""). by rewrite E.
Qed.

(** ** The properties at work on the small platform *)

Lemma parsePackageSettings_names_witness :
  TrimSpace "db" = "db" ∧ hasByte "," "db" = false ∧ hasByte "@" "db" = false.
Proof.
  apply (parsePackageSettings_names " db ,x@error" (Some full) "db").
  vm_compute. eauto.
Defined.

Lemma LOG_LEVEL_unused_witness :
  NewStandardOutput {[ "LOG" := "a@mute"; "LOG_LEVEL" := "error" ]} 1%nat
  = NewStandardOutput {[ "LOG" := "a@mute" ]} 1%nat.
Proof.
  apply LOG_LEVEL_unused.
  - vm_compute. reflexivity.
  - intros item Hitem. vm_compute in Hitem.
    apply list_elem_of_singleton in Hitem. rewrite Hitem. reflexivity.
Defined.

Lemma parsePackageSettings_single_item_witness :
  parsePackageSettings " db " None = {[ TrimSpace " db " := None ]}
  ∧ parsePackageSettings (" db " ++ "@" ++ "timer") None
    = {[ TrimSpace " db " := parseVerbosityLevel "timer" ]}
  ∧ parsePackageSettings (" db " ++ "@") None
    = {[ TrimSpace " db " := Some full ]}.
Proof.
  apply (parsePackageSettings_single_item " db " "timer" None);
    vm_compute; reflexivity.
Defined.

Lemma Write_appends_witness :
  files
    (match Write (P := Demo.platform) (NewStandardOutput Demo.env 1%nat)
             Scene.record Demo.world
     with
     | Some (_, σ') => σ'
     | None => Demo.world
     end) 2%nat
  = files Demo.world 2%nat.
Proof.
  assert (H : Write (P := Demo.platform) (NewStandardOutput Demo.env 1%nat)
                Scene.record Demo.world
              = Some (tt,
                      match Write (P := Demo.platform)
                              (NewStandardOutput Demo.env 1%nat)
                              Scene.record Demo.world
                      with
                      | Some (_, σ') => σ'
                      | None => Demo.world
                      end))
    by (vm_compute; reflexivity).
  apply (proj1 (Write_appends (P := Demo.platform) _ _ _ _ H)).
  simpl. lia.
Defined.

Lemma Write_denies_by_default_witness :
  Write (P := Demo.platform)
    Scene.silentWriter
    Scene.record Demo.world
  = Some (tt, Demo.world).
Proof.
  apply (Write_denies_by_default (P := Demo.platform)); vm_compute; reflexivity.
Defined.

Lemma PrettyFormat_elapsed_only_TIMER_witness :
  PrettyFormat (P := Demo.platform) (NewStandardOutput Demo.env 1%nat)
    (withElapsed 7
       Scene.record) Demo.world
  = PrettyFormat (P := Demo.platform) (NewStandardOutput Demo.env 1%nat)
      Scene.record Demo.world.
Proof.
  apply (PrettyFormat_elapsed_only_TIMER (P := Demo.platform)).
  vm_compute. discriminate.
Defined.

Lemma Write_JSON_fallback_witness :
  (Write (P := Demo.platform)
     Scene.jsonWriter
     Scene.record Demo.world)
    ≫= (fun r => Some (files r.2 1%nat))
  = Some ("{ " ++ quote ++ "logger-error" ++ quote ++ ": "
            ++ quote ++ "json: unsupported value" ++ quote ++ " }" ++ newline).
Proof.
  rewrite (Write_JSON_fallback (P := Demo.platform) _ _
             "json: unsupported value" Demo.world);
    vm_compute; reflexivity.
Defined.
